(** * M/M/c queueing metrics: a shallow embedding of [calc.py],
      [contour.py] and [plot.py]

    The Python sources compute with [float] and [int].  An [int] is a
    [Z].  A finite [float] is an exact rational, extended by the IEEE
    values [inf], [-inf] and [nan].  Exceptions are explicit: a function
    returns [Ok v] or [Raise e].

    The exceptions of the interpreter are raised where it raises them:
    division raises [ZeroDivisionError] on a zero divisor,
    [math.factorial] raises [ValueError] on a negative argument, and
    [OverflowError] is raised by [x ** n] when the power leaves the
    binary64 range and by the conversion of a [math.factorial] result
    that is too large for a [float] (from [171!] on).

    What raises nothing is computed exactly: rounding, underflow to
    zero, and the silent overflow of [+], [*] and [/] to [inf] are not
    modelled.  The server count and the literals of the source are taken
    to lie in the binary64 range, where their conversion to [float] does
    not fail. *)

From Stdlib Require Import ZArith QArith Qpower Qabs Qfield List Lia Lqa Bool Arith.
Import ListNotations.

Open Scope Q_scope.

(** ** Exceptions and results *)

Inductive exn : Type :=
| ZeroDivisionError
| ValueError
| OverflowError.

Inductive result (A : Type) : Type :=
| Ok (a : A)
| Raise (e : exn).

Arguments Ok {A} a.
Arguments Raise {A} e.

Definition bind {A B : Type} (m : result A) (k : A -> result B) : result B :=
  match m with
  | Ok a => k a
  | Raise e => Raise e
  end.

Notation "x <- m ;; k" := (bind m (fun x => k))
  (at level 61, m at next level, right associativity).

(** ** Python floats in exact arithmetic *)

Inductive pyfloat : Type :=
| Fin (q : Q)
| PInf
| NInf
| NaN.

(** [int] to [float] for the server count and for literals, which are
    within the binary64 range. *)
Definition of_int (n : Z) : pyfloat := Fin (inject_Z n).

Definition fneg (x : pyfloat) : pyfloat :=
  match x with
  | Fin q => Fin (- q)
  | PInf => NInf
  | NInf => PInf
  | NaN => NaN
  end.

Definition fadd (x y : pyfloat) : pyfloat :=
  match x, y with
  | NaN, _ | _, NaN => NaN
  | Fin a, Fin b => Fin (a + b)
  | PInf, NInf | NInf, PInf => NaN
  | PInf, _ | _, PInf => PInf
  | NInf, _ | _, NInf => NInf
  end.

Definition fsub (x y : pyfloat) : pyfloat := fadd x (fneg y).

(** Sign of a float that is not [nan]: [Lt] negative, [Eq] zero, [Gt] positive. *)
Definition fsign (x : pyfloat) : option comparison :=
  match x with
  | Fin q => Some (q ?= 0)
  | PInf => Some Gt
  | NInf => Some Lt
  | NaN => None
  end.

Definition inf_of_sign (s : comparison) : pyfloat :=
  match s with
  | Gt => PInf
  | Lt => NInf
  | Eq => NaN
  end.

Definition sign_mul (s t : comparison) : comparison :=
  match s, t with
  | Eq, _ | _, Eq => Eq
  | Gt, u | u, Gt => u
  | Lt, Lt => Gt
  end.

Definition fmul (x y : pyfloat) : pyfloat :=
  match x, y with
  | Fin a, Fin b => Fin (a * b)
  | _, _ =>
      match fsign x, fsign y with
      | Some s, Some t => inf_of_sign (sign_mul s t)
      | _, _ => NaN
      end
  end.

(** True division [x / y]: a zero divisor raises, whatever the dividend. *)
Definition fdiv (x y : pyfloat) : result pyfloat :=
  match y with
  | Fin b =>
      if Qeq_bool b 0 then Raise ZeroDivisionError
      else match x with
           | Fin a => Ok (Fin (a / b))
           | NaN => Ok NaN
           | _ => Ok (fmul x (Fin (/ b)))
           end
  | NaN => Ok NaN
  | _ =>
      match x with
      | Fin _ => Ok (Fin 0)
      | _ => Ok NaN
      end
  end.

(** The finite binary64 numbers lie strictly below [2^1024 - 2^970] in
    magnitude: a value at or beyond that bound rounds to infinity. *)
Definition float_bound : Q := inject_Z (2 ^ 1024 - 2 ^ 970).

Definition overflows (q : Q) : bool := Qle_bool float_bound (Qabs q).

(** [x ** n] for a float [x] and an int [n]: [OverflowError] when the
    finite result leaves the binary64 range. *)
Definition fpow (x : pyfloat) (n : Z) : result pyfloat :=
  if (n =? 0)%Z then Ok (Fin 1)
  else match x with
       | Fin q =>
           if Qeq_bool q 0 && (n <? 0)%Z then Raise ZeroDivisionError
           else if overflows (q ^ n) then Raise OverflowError
           else Ok (Fin (q ^ n))
       | PInf => if (n <? 0)%Z then Ok (Fin 0) else Ok PInf
       | NInf =>
           if (n <? 0)%Z then Ok (Fin 0)
           else if Z.odd n then Ok NInf else Ok PInf
       | NaN => Ok NaN
       end.

(** The conversion of an [int] of unbounded size to [float], as mixed
    arithmetic does it for the result of [math.factorial]:
    [OverflowError] ("int too large to convert to float") beyond the
    binary64 range. *)
Definition float_of_int (n : Z) : result pyfloat :=
  if overflows (inject_Z n) then Raise OverflowError else Ok (of_int n).

(** Comparison; [None] when an operand is [nan], which makes every
    ordering test and [==] false. *)
Definition fcmp (x y : pyfloat) : option comparison :=
  match x, y with
  | NaN, _ | _, NaN => None
  | Fin a, Fin b => Some (a ?= b)
  | PInf, PInf | NInf, NInf => Some Eq
  | PInf, _ | _, NInf => Some Gt
  | NInf, _ | _, PInf => Some Lt
  end.

Definition fge (x y : pyfloat) : bool :=
  match fcmp x y with
  | Some Gt | Some Eq => true
  | _ => false
  end.

Definition fle (x y : pyfloat) : bool :=
  match fcmp x y with
  | Some Lt | Some Eq => true
  | _ => false
  end.

Definition feq (x y : pyfloat) : bool :=
  match fcmp x y with
  | Some Eq => true
  | _ => false
  end.

(** ** Library functions *)

(** [n!] as an integer. *)
Fixpoint fact_Z (n : nat) : Z :=
  match n with
  | O => 1%Z
  | S k => (Z.of_nat n * fact_Z k)%Z
  end.

(** [math.factorial]. *)
Definition factorial (n : Z) : result Z :=
  if (n <? 0)%Z then Raise ValueError
  else Ok (fact_Z (Z.to_nat n)).

(** [range(c)]: empty when [c <= 0]. *)
Definition range (c : Z) : list Z := map Z.of_nat (seq 0 (Z.to_nat c)).

(** A [for] loop over a list whose body updates one variable and may raise. *)
Fixpoint for_in {A S : Type} (xs : list A) (body : S -> A -> result S) (s : S)
  : result S :=
  match xs with
  | [] => Ok s
  | x :: xs' => s' <- body s x ;; for_in xs' body s'
  end.

(** [try: body  except (ValueError, OverflowError): return nan], followed
    by the rest of the function. *)
Definition try_nan {A : Type} (body : result A) (rest : A -> result pyfloat)
  : result pyfloat :=
  match body with
  | Ok a => rest a
  | Raise ValueError | Raise OverflowError => Ok NaN
  | Raise ZeroDivisionError => Raise ZeroDivisionError
  end.

(** ** calc.py *)

Definition calculate_lq (rho : pyfloat) (c : Z) : result pyfloat :=
  if fge rho (of_int 1) then Ok PInf
  else
    sum_terms <- for_in (range c)
      (fun sum_terms n =>
         p <- fpow (fmul (of_int c) rho) n ;;
         f <- factorial n ;;
         ff <- float_of_int f ;;
         t <- fdiv p ff ;;
         Ok (fadd sum_terms t))
      (Fin 0) ;;
    p <- fpow (fmul (of_int c) rho) c ;;
    f <- factorial c ;;
    ff <- float_of_int f ;;
    pc_numerator <- fdiv p (fmul ff (fsub (of_int 1) rho)) ;;
    pc <- fdiv pc_numerator (fadd sum_terms pc_numerator) ;;
    fdiv (fmul pc rho) (fsub (of_int 1) rho).

Definition calculate_wq (lq mu : pyfloat) : result pyfloat :=
  fdiv lq mu.

Definition calculate_l (lq rho : pyfloat) (c : Z) : result pyfloat :=
  Ok (fadd lq (fmul (of_int c) rho)).

Definition calculate_w (wq mu : pyfloat) : result pyfloat :=
  inv <- fdiv (of_int 1) mu ;;
  Ok (fadd wq inv).

Definition calculate_rho (lambda_val mu : pyfloat) (c : Z) : result pyfloat :=
  fdiv lambda_val (fmul (of_int c) mu).

Definition calculate_lambda (rho mu : pyfloat) (c : Z) : result pyfloat :=
  Ok (fmul (fmul rho (of_int c)) mu).

Definition calculate_mu (lambda_val rho : pyfloat) (c : Z) : result pyfloat :=
  fdiv lambda_val (fmul rho (of_int c)).

(** ** contour.py *)

(** The [try] block of [calculate_average_queue_time]: it binds [r] and
    [p0] ([sum_term] and [final_term] are not used after it). *)
Definition queue_time_p0 (arrival_rate service_rate rho : pyfloat) (servers : Z)
  : result (pyfloat * pyfloat) :=
  r <- fdiv arrival_rate service_rate ;;
  sum_term <- for_in (range servers)
    (fun acc n =>
       p <- fpow r n ;;
       f <- factorial n ;;
       ff <- float_of_int f ;;
       t <- fdiv p ff ;;
       Ok (fadd acc t))
    (Fin 0) ;;
  p <- fpow r servers ;;
  f <- factorial servers ;;
  ff <- float_of_int f ;;
  q <- fdiv p ff ;;
  i <- fdiv (of_int 1) (fsub (of_int 1) rho) ;;
  p0 <- fdiv (of_int 1) (fadd sum_term (fmul q i)) ;;
  Ok (r, p0).

(** The assignment to [lq] that follows the [try] block. *)
Definition queue_time_lq (r rho p0 : pyfloat) (servers : Z) : result pyfloat :=
  p <- fpow r servers ;;
  f <- factorial servers ;;
  d <- fpow (fsub (of_int 1) rho) 2 ;;
  ff <- float_of_int f ;;
  x <- fdiv (fmul p rho) (fmul ff d) ;;
  Ok (fmul x p0).

Definition calculate_average_queue_time
    (arrival_rate service_rate : pyfloat) (servers : Z) : result pyfloat :=
  if fge arrival_rate (fmul (of_int servers) service_rate)
     || fle service_rate (of_int 0)
  then Ok NaN
  else
    rho <- calculate_rho arrival_rate service_rate servers ;;
    if fge rho (Fin 1) then Ok NaN
    else
      try_nan (queue_time_p0 arrival_rate service_rate rho servers)
        (fun '(r, p0) =>
           lq <- queue_time_lq r rho p0 servers ;;
           if feq arrival_rate (of_int 0) then Ok (Fin 0)
           else fdiv lq arrival_rate).

(** The body of the mesh loop of [contour.py] for one grid point: the
    value stored in [W_vals].  The test [wq is not np.nan] is an identity
    test against the object that [calculate_average_queue_time] returns
    as its sentinel; a [nan] that is not that object would take the first
    branch and give [3 * nan + 1 / mu_val], which is [nan] as well. *)
Definition response_time_cell (lambda_val mu_val : pyfloat) (c : Z)
  : result pyfloat :=
  wq <- calculate_average_queue_time lambda_val mu_val c ;;
  match wq with
  | NaN => Ok NaN
  | _ =>
      inv <- fdiv (of_int 1) mu_val ;;
      Ok (fadd (fmul (of_int 3) wq) inv)
  end.

(** ** plot.py *)

Definition calculate_wq_for_plot
    (arrival_rate service_rate : pyfloat) (servers : Z) : result pyfloat :=
  if fge arrival_rate (fmul (of_int servers) service_rate)
     || fle service_rate (of_int 0)
  then Ok NaN
  else
    rho <- calculate_rho arrival_rate service_rate servers ;;
    if fge rho (Fin 1) then Ok NaN
    else
      try_nan (lq <- calculate_lq rho servers ;; calculate_wq lq service_rate)
        (fun wq =>
           if feq arrival_rate (of_int 0) then Ok (Fin 0) else Ok wq).

(** ** The formulas of the specification *)

(** [sum_upto f k] is the sum of [f n] for [n] from [0] to [k - 1]. *)
Fixpoint sum_upto (f : nat -> Q) (k : nat) : Q :=
  match k with
  | O => 0
  | S k' => sum_upto f k' + f k'
  end.

(** The term [a^n / n!]. *)
Definition erlang_term (a : Q) (n : nat) : Q :=
  a ^ Z.of_nat n / inject_Z (Z.of_nat (fact n)).

(** [S], the sum of [a^n / n!] for [n < c]. *)
Definition erlang_S (a : Q) (c : nat) : Q := sum_upto (erlang_term a) c.

(** [T = a^c / (c! * (1 - rho))]. *)
Definition erlang_T (a rho : Q) (c : nat) : Q :=
  a ^ Z.of_nat c / (inject_Z (Z.of_nat (fact c)) * (1 - rho)).

(** The Erlang-C waiting probability [Pc = T / (S + T)] with [a = c * rho]. *)
Definition erlang_Pc (rho : Q) (c : nat) : Q :=
  let a := inject_Z (Z.of_nat c) * rho in
  erlang_T a rho c / (erlang_S a c + erlang_T a rho c).

(** [Lq = Pc * rho / (1 - rho)]. *)
Definition lq_erlang (rho : Q) (c : nat) : Q :=
  erlang_Pc rho c * rho / (1 - rho).

(** The direct form [Lq = (a^c * rho / (c! * (1 - rho)^2)) * P0] with
    [P0 = 1 / (S + T)]. *)
Definition lq_direct (a rho : Q) (c : nat) : Q :=
  a ^ Z.of_nat c * rho / (inject_Z (Z.of_nat (fact c)) * (1 - rho) ^ 2)
  * (1 / (erlang_S a c + erlang_T a rho c)).

(** ** Outcomes *)

(** The call ends with an exception. *)
Definition raises {A : Type} (r : result A) : Prop := exists e, r = Raise e.

(** A returned value that is a finite number or the [nan] sentinel. *)
Definition finite_or_nan (x : pyfloat) : bool :=
  match x with
  | Fin _ | NaN => true
  | PInf | NInf => false
  end.

(** * Properties *)

(** ** Primitive operations on finite operands *)

Lemma fge_fin (a b : Q) : fge (Fin a) (Fin b) = true <-> b <= a.
Proof.
  unfold fge; simpl. destruct (a ?= b) eqn:E.
  - apply Qeq_alt in E. split; [intros _; rewrite E; apply Qle_refl | reflexivity].
  - apply Qlt_alt in E. split; [discriminate | intros H; lra].
  - apply Qgt_alt in E. split; [intros _; apply Qlt_le_weak; exact E | reflexivity].
Qed.

Lemma fge_fin_false (a b : Q) : fge (Fin a) (Fin b) = false <-> a < b.
Proof.
  pose proof (fge_fin a b) as H. destruct (fge (Fin a) (Fin b)).
  - split; [discriminate |]. intros L. assert (b <= a) by (apply H; reflexivity). lra.
  - split; [intros _ | reflexivity].
    destruct (Qlt_le_dec a b) as [L | L]; [exact L |].
    apply H in L. discriminate.
Qed.

Lemma fle_fin (a b : Q) : fle (Fin a) (Fin b) = true <-> a <= b.
Proof.
  unfold fle; simpl. destruct (a ?= b) eqn:E.
  - apply Qeq_alt in E. split; [intros _; rewrite E; apply Qle_refl | reflexivity].
  - apply Qlt_alt in E. split; [intros _; apply Qlt_le_weak; exact E | reflexivity].
  - apply Qgt_alt in E. split; [discriminate | intros H; lra].
Qed.

Lemma fle_fin_false (a b : Q) : fle (Fin a) (Fin b) = false <-> b < a.
Proof.
  pose proof (fle_fin a b) as H. destruct (fle (Fin a) (Fin b)).
  - split; [discriminate |]. intros L. assert (a <= b) by (apply H; reflexivity). lra.
  - split; [intros _ | reflexivity].
    destruct (Qlt_le_dec b a) as [L | L]; [exact L |].
    apply H in L. discriminate.
Qed.

Lemma feq_fin (a b : Q) : feq (Fin a) (Fin b) = true <-> a == b.
Proof.
  unfold feq; simpl. destruct (a ?= b) eqn:E.
  - apply Qeq_alt in E. split; [intros _; exact E | reflexivity].
  - apply Qlt_alt in E. split; [discriminate | intros H; lra].
  - apply Qgt_alt in E. split; [discriminate | intros H; lra].
Qed.

Lemma fdiv_fin (a b : Q) : ~ b == 0 -> fdiv (Fin a) (Fin b) = Ok (Fin (a / b)).
Proof.
  intros H. unfold fdiv. destruct (Qeq_bool b 0) eqn:E; [| reflexivity].
  apply Qeq_bool_iff in E. contradiction.
Qed.

Lemma fdiv_zero (x : pyfloat) (b : Q) :
  b == 0 -> fdiv x (Fin b) = Raise ZeroDivisionError.
Proof.
  intros H. unfold fdiv. apply Qeq_bool_iff in H. rewrite H. reflexivity.
Qed.

(** ** The binary64 range *)

Lemma float_bound_gt_1 : 1 < float_bound.
Proof. vm_compute. reflexivity. Qed.

Lemma overflows_true_iff (q : Q) : overflows q = true <-> float_bound <= Qabs q.
Proof. apply Qle_bool_iff. Qed.

Lemma overflows_false_iff (q : Q) : overflows q = false <-> Qabs q < float_bound.
Proof.
  pose proof (overflows_true_iff q) as H. destruct (overflows q).
  - split; [discriminate |]. intros L.
    assert (float_bound <= Qabs q) by (apply H; reflexivity). lra.
  - split; [intros _ | reflexivity].
    destruct (Qlt_le_dec (Qabs q) float_bound) as [L | L]; [exact L |].
    apply H in L. discriminate.
Qed.

Lemma overflows_eq (x y : Q) : x == y -> overflows x = overflows y.
Proof.
  intros E. destruct (overflows y) eqn:Y.
  - apply overflows_true_iff. apply overflows_true_iff in Y. rewrite E. exact Y.
  - apply overflows_false_iff. apply overflows_false_iff in Y. rewrite E. exact Y.
Qed.

Lemma overflows_le (x y : Q) :
  Qabs x <= Qabs y -> overflows y = false -> overflows x = false.
Proof.
  intros L Y. apply overflows_false_iff. apply overflows_false_iff in Y. lra.
Qed.

Lemma overflows_unit (x : Q) : 0 <= x -> x <= 1 -> overflows x = false.
Proof.
  intros H0 H1. apply overflows_false_iff. rewrite Qabs_pos by exact H0.
  pose proof float_bound_gt_1. lra.
Qed.

Lemma Qpower_nat_succ (a : Q) (n : nat) :
  a ^ Z.of_nat (S n) == a * a ^ Z.of_nat n.
Proof.
  rewrite Nat2Z.inj_succ. unfold Z.succ.
  rewrite Qpower_plus' by lia. rewrite Qpower_1_r. ring.
Qed.


Lemma Qpower_nat_le (a b : Q) (n : nat) :
  0 <= a -> a <= b -> a ^ Z.of_nat n <= b ^ Z.of_nat n.
Proof.
  intros Ha Hab. induction n as [| n IH].
  - apply Qle_refl.
  - rewrite !Qpower_nat_succ.
    apply Qmult_le_compat_nonneg; split; try assumption.
    apply Qpower_0_le; exact Ha.
Qed.

(** For a base [a >= 0], the powers below a power that fits fit as well. *)
Lemma pow_fits_below (a : Q) (n k : nat) :
  0 <= a -> (n <= k)%nat ->
  overflows (a ^ Z.of_nat k) = false -> overflows (a ^ Z.of_nat n) = false.
Proof.
  intros Ha Hn Hk.
  pose proof (Qpower_0_le a (Z.of_nat n) Ha) as Pn.
  destruct (Qlt_le_dec a 1) as [L | L].
  - apply overflows_unit; [exact Pn |].
    rewrite <- (Qpower_1 (Z.of_nat n)). apply Qpower_nat_le; lra.
  - apply (overflows_le _ (a ^ Z.of_nat k)); [| exact Hk].
    rewrite !Qabs_pos by (apply Qpower_0_le; exact Ha).
    apply Qpower_le_compat_l; [lia | exact L].
Qed.

(** A power fits when the same power of a larger base fits. *)
Lemma pow_fits_base (a b : Q) (k : nat) :
  0 <= a -> a <= b ->
  overflows (b ^ Z.of_nat k) = false -> overflows (a ^ Z.of_nat k) = false.
Proof.
  intros Ha Hab Hb.
  apply (overflows_le _ (b ^ Z.of_nat k)); [| exact Hb].
  pose proof (Qpower_nat_le a b k Ha Hab) as L.
  pose proof (Qpower_0_le a (Z.of_nat k) Ha) as P.
  rewrite !Qabs_pos by lra. exact L.
Qed.

(** ** Powers, factorials and their conversion *)

Lemma fpow_nonneg (q : Q) (n : Z) :
  (0 <= n)%Z ->
  fpow (Fin q) n
  = if overflows (q ^ n) then Raise OverflowError else Ok (Fin (q ^ n)).
Proof.
  intros H. unfold fpow. destruct (n =? 0)%Z eqn:E.
  - apply Z.eqb_eq in E. subst n. reflexivity.
  - replace (n <? 0)%Z with false by (symmetry; apply Z.ltb_ge; exact H).
    rewrite andb_false_r. reflexivity.
Qed.

Lemma fpow_fin (q : Q) (n : Z) :
  (0 <= n)%Z -> overflows (q ^ n) = false -> fpow (Fin q) n = Ok (Fin (q ^ n)).
Proof. intros H O. rewrite fpow_nonneg by exact H. rewrite O. reflexivity. Qed.

Lemma fact_Z_fact (n : nat) : fact_Z n = Z.of_nat (fact n).
Proof.
  induction n as [| n IH]; [reflexivity |].
  change (fact_Z (S n)) with (Z.of_nat (S n) * fact_Z n)%Z.
  change (fact (S n)) with (S n * fact n)%nat.
  rewrite IH, Nat2Z.inj_mul. reflexivity.
Qed.

Lemma factorial_of_nat (n : nat) :
  factorial (Z.of_nat n) = Ok (Z.of_nat (fact n)).
Proof.
  unfold factorial.
  replace (Z.of_nat n <? 0)%Z with false by (symmetry; apply Z.ltb_ge; lia).
  rewrite Nat2Z.id, fact_Z_fact. reflexivity.
Qed.

Lemma factorial_neg (n : Z) : (n < 0)%Z -> factorial n = Raise ValueError.
Proof.
  intros H. unfold factorial. apply Z.ltb_lt in H. rewrite H. reflexivity.
Qed.

Lemma fact_Q_pos (n : nat) : 0 < inject_Z (Z.of_nat (fact n)).
Proof.
  replace 0 with (inject_Z 0) by reflexivity. rewrite <- Zlt_Qlt.
  pose proof (lt_O_fact n). lia.
Qed.

Lemma fact_Q_neq (n : nat) : ~ inject_Z (Z.of_nat (fact n)) == 0.
Proof. pose proof (fact_Q_pos n). lra. Qed.

Lemma fact_Q_le (n m : nat) :
  (n <= m)%nat -> inject_Z (Z.of_nat (fact n)) <= inject_Z (Z.of_nat (fact m)).
Proof.
  intros H. rewrite <- Zle_Qle. apply Nat2Z.inj_le. apply fact_le. exact H.
Qed.

(** [170!] is the last factorial that converts to [float]. *)
Lemma fact_fits (n : nat) :
  (n <= 170)%nat -> overflows (inject_Z (Z.of_nat (fact n))) = false.
Proof.
  intros H. apply (overflows_le _ (inject_Z (Z.of_nat (fact 170)))).
  - rewrite !Qabs_pos by (apply Qlt_le_weak, fact_Q_pos).
    apply fact_Q_le. exact H.
  - rewrite <- fact_Z_fact. vm_compute. reflexivity.
Qed.

Lemma fact_overflows (n : nat) :
  (171 <= n)%nat -> overflows (inject_Z (Z.of_nat (fact n))) = true.
Proof.
  intros H. apply overflows_true_iff.
  rewrite Qabs_pos by (apply Qlt_le_weak, fact_Q_pos).
  apply Qle_trans with (inject_Z (Z.of_nat (fact 171))).
  - rewrite <- fact_Z_fact. vm_compute. discriminate.
  - apply fact_Q_le. exact H.
Qed.

Lemma float_of_fact (n : nat) :
  float_of_int (Z.of_nat (fact n))
  = if overflows (inject_Z (Z.of_nat (fact n))) then Raise OverflowError
    else Ok (Fin (inject_Z (Z.of_nat (fact n)))).
Proof. reflexivity. Qed.

Lemma float_of_fact_fits (n : nat) :
  (n <= 170)%nat ->
  float_of_int (Z.of_nat (fact n)) = Ok (Fin (inject_Z (Z.of_nat (fact n)))).
Proof. intros H. rewrite float_of_fact, fact_fits by exact H. reflexivity. Qed.

Lemma float_of_fact_overflows (n : nat) :
  (171 <= n)%nat -> float_of_int (Z.of_nat (fact n)) = Raise OverflowError.
Proof. intros H. rewrite float_of_fact, fact_overflows by exact H. reflexivity. Qed.

Lemma inject_nat_nonneg (n : nat) : 0 <= inject_Z (Z.of_nat n).
Proof.
  replace 0 with (inject_Z 0) by reflexivity. rewrite <- Zle_Qle. lia.
Qed.

Lemma inject_nat_pos (n : nat) : (1 <= n)%nat -> 1 <= inject_Z (Z.of_nat n).
Proof.
  intros H. replace 1 with (inject_Z 1) by reflexivity. rewrite <- Zle_Qle. lia.
Qed.

(** ** Loops *)

Lemma for_in_app {A S : Type} (xs ys : list A) (body : S -> A -> result S) (s : S) :
  for_in (xs ++ ys) body s = (s' <- for_in xs body s ;; for_in ys body s').
Proof.
  revert s. induction xs as [| x xs IH]; intros s; simpl; [reflexivity |].
  destruct (body s x); simpl; [apply IH | reflexivity].
Qed.

Lemma range_succ (k : nat) :
  range (Z.of_nat (S k)) = range (Z.of_nat k) ++ [Z.of_nat k].
Proof.
  unfold range. rewrite !Nat2Z.id, seq_S, map_app. reflexivity.
Qed.

Lemma range_nonpos (c : Z) : (c <= 0)%Z -> range c = [].
Proof.
  intros H. unfold range. destruct c; try reflexivity. lia.
Qed.

(** The accumulation loop shared by [calculate_lq] and
    [calculate_average_queue_time] computes [S] when every power and
    every factorial of its terms fits in a [float]. *)
Lemma sum_loop (a : Q) (k : nat) :
  (k <= 171)%nat ->
  (forall n, (n < k)%nat -> overflows (a ^ Z.of_nat n) = false) ->
  for_in (range (Z.of_nat k))
    (fun acc n =>
       p <- fpow (Fin a) n ;;
       f <- factorial n ;;
       ff <- float_of_int f ;;
       t <- fdiv p ff ;;
       Ok (fadd acc t))
    (Fin 0)
  = Ok (Fin (erlang_S a k)).
Proof.
  induction k as [| k IH]; intros Hk Hp.
  - reflexivity.
  - rewrite range_succ, for_in_app, IH by (lia || (intros; apply Hp; lia)).
    cbn [bind for_in].
    rewrite fpow_fin by (lia || (apply Hp; lia)). cbn [bind].
    rewrite factorial_of_nat. cbn [bind].
    rewrite float_of_fact_fits by lia. cbn [bind].
    rewrite fdiv_fin by apply fact_Q_neq. reflexivity.
Qed.

(** Whatever the base, the loop ends with the sum [S] or with an
    [OverflowError]: its divisors are factorials, never zero. *)
Lemma sum_loop_outcome (a : Q) (k : nat) :
  let loop :=
    for_in (range (Z.of_nat k))
      (fun acc n =>
         p <- fpow (Fin a) n ;;
         f <- factorial n ;;
         ff <- float_of_int f ;;
         t <- fdiv p ff ;;
         Ok (fadd acc t))
      (Fin 0) in
  loop = Raise OverflowError \/ loop = Ok (Fin (erlang_S a k)).
Proof.
  cbv zeta. induction k as [| k IH].
  - right. reflexivity.
  - rewrite range_succ, for_in_app.
    destruct IH as [-> | ->]; [left; reflexivity |].
    cbn [bind for_in]. rewrite fpow_nonneg by lia.
    destruct (overflows (a ^ Z.of_nat k)); [left; reflexivity |]. cbn [bind].
    rewrite factorial_of_nat. cbn [bind]. rewrite float_of_fact.
    destruct (overflows (inject_Z (Z.of_nat (fact k)))); [left; reflexivity |].
    cbn [bind]. rewrite fdiv_fin by apply fact_Q_neq. right. reflexivity.
Qed.

(** ** Signs of the Erlang terms *)

Lemma erlang_term_nonneg (a : Q) (n : nat) : 0 <= a -> 0 <= erlang_term a n.
Proof.
  intros Ha. unfold erlang_term. apply Qle_shift_div_l; [apply fact_Q_pos |].
  rewrite Qmult_0_l. apply Qpower_0_le. exact Ha.
Qed.

Lemma erlang_S_ge_1 (a : Q) (c : nat) : 0 <= a -> (1 <= c)%nat -> 1 <= erlang_S a c.
Proof.
  intros Ha Hc. unfold erlang_S. induction c as [| c IH]; [lia |].
  destruct c as [| c].
  - vm_compute. discriminate.
  - assert (1 <= sum_upto (erlang_term a) (S c)) as H by (apply IH; lia).
    change (sum_upto (erlang_term a) (S (S c)))
      with (sum_upto (erlang_term a) (S c) + erlang_term a (S c)).
    pose proof (erlang_term_nonneg a (S c) Ha). lra.
Qed.

Lemma erlang_T_nonneg (a rho : Q) (c : nat) :
  0 <= a -> rho < 1 -> 0 <= erlang_T a rho c.
Proof.
  intros Ha Hr. unfold erlang_T.
  assert (0 < inject_Z (Z.of_nat (fact c)) * (1 - rho)) as Hd.
  { apply Qmult_lt_0_compat; [apply fact_Q_pos | lra]. }
  apply Qle_shift_div_l; [exact Hd |].
  rewrite Qmult_0_l. apply Qpower_0_le. exact Ha.
Qed.

Lemma erlang_den_pos (a rho : Q) (c : nat) :
  0 <= a -> rho < 1 -> (1 <= c)%nat -> 0 < erlang_S a c + erlang_T a rho c.
Proof.
  intros Ha Hr Hc.
  pose proof (erlang_S_ge_1 a c Ha Hc). pose proof (erlang_T_nonneg a rho c Ha Hr).
  lra.
Qed.

Lemma erlang_Pc_nonneg (rho : Q) (c : nat) :
  0 <= rho -> rho < 1 -> (1 <= c)%nat -> 0 <= erlang_Pc rho c.
Proof.
  intros H0 H1 Hc. unfold erlang_Pc. cbv zeta.
  assert (0 <= inject_Z (Z.of_nat c) * rho) as Ha.
  { apply Qmult_le_0_compat; [apply inject_nat_nonneg | exact H0]. }
  apply Qle_shift_div_l; [apply erlang_den_pos; assumption |].
  rewrite Qmult_0_l. apply erlang_T_nonneg; assumption.
Qed.

Lemma lq_erlang_nonneg (rho : Q) (c : nat) :
  0 <= rho -> rho < 1 -> (1 <= c)%nat -> 0 <= lq_erlang rho c.
Proof.
  intros H0 H1 Hc. unfold lq_erlang.
  apply Qle_shift_div_l; [lra |]. rewrite Qmult_0_l.
  apply Qmult_le_0_compat; [apply erlang_Pc_nonneg; assumption | exact H0].
Qed.

(** ** [calculate_lq] on a stable load *)

Lemma load_nonneg (rho : Q) (k : nat) :
  0 <= rho -> 0 <= inject_Z (Z.of_nat k) * rho.
Proof.
  intros H. apply Qmult_le_0_compat; [apply inject_nat_nonneg | exact H].
Qed.

(** Up to [170] servers, and as long as [(c * rho)^c] fits in a [float],
    [calculate_lq] returns the Erlang-C queue length. *)
Lemma calculate_lq_stable (rho : Q) (c : nat) :
  0 <= rho -> rho < 1 -> (1 <= c)%nat -> (c <= 170)%nat ->
  overflows ((inject_Z (Z.of_nat c) * rho) ^ Z.of_nat c) = false ->
  calculate_lq (Fin rho) (Z.of_nat c) = Ok (Fin (lq_erlang rho c)).
Proof.
  intros H0 H1 Hc Hc' Ho. unfold calculate_lq.
  pose proof (load_nonneg rho c H0) as Ha.
  replace (fge (Fin rho) (of_int 1)) with false
    by (symmetry; apply fge_fin_false; exact H1).
  change (fmul (of_int (Z.of_nat c)) (Fin rho))
    with (Fin (inject_Z (Z.of_nat c) * rho)).
  rewrite sum_loop
    by (lia || (intros n Hn; apply (pow_fits_below _ n c); (lia || assumption))).
  cbn [bind].
  rewrite fpow_fin by (lia || assumption). cbn [bind].
  rewrite factorial_of_nat. cbn [bind].
  rewrite float_of_fact_fits by exact Hc'. cbn [bind].
  change (fmul (Fin (inject_Z (Z.of_nat (fact c)))) (fsub (of_int 1) (Fin rho)))
    with (Fin (inject_Z (Z.of_nat (fact c)) * (1 - rho))).
  rewrite fdiv_fin.
  2:{ pose proof (fact_Q_pos c).
      assert (0 < inject_Z (Z.of_nat (fact c)) * (1 - rho))
        by (apply Qmult_lt_0_compat; lra).
      lra. }
  cbn [bind fadd].
  rewrite fdiv_fin.
  2:{ pose proof (erlang_den_pos _ rho c Ha H1 Hc) as Hd.
      unfold erlang_T in Hd. lra. }
  cbn [bind fmul].
  change (fsub (of_int 1) (Fin rho)) with (Fin (1 - rho)).
  rewrite fdiv_fin by lra.
  reflexivity.
Qed.

(** Beyond [170] servers, or when [(c * rho)^c] leaves the binary64
    range, [calculate_lq] raises [OverflowError] on every load
    [rho < 1]: in the loop, in the power, or in the conversion of [c!]. *)
Lemma calculate_lq_raises (rho : Q) (c : nat) :
  rho < 1 ->
  (171 <= c)%nat \/ overflows ((inject_Z (Z.of_nat c) * rho) ^ Z.of_nat c) = true ->
  calculate_lq (Fin rho) (Z.of_nat c) = Raise OverflowError.
Proof.
  intros H1 Hr. unfold calculate_lq.
  replace (fge (Fin rho) (of_int 1)) with false
    by (symmetry; apply fge_fin_false; exact H1).
  change (fmul (of_int (Z.of_nat c)) (Fin rho))
    with (Fin (inject_Z (Z.of_nat c) * rho)).
  destruct (sum_loop_outcome (inject_Z (Z.of_nat c) * rho) c) as [-> | ->];
    [reflexivity |].
  cbn [bind]. rewrite fpow_nonneg by lia.
  destruct (overflows ((inject_Z (Z.of_nat c) * rho) ^ Z.of_nat c)) eqn:O;
    [reflexivity |].
  destruct Hr as [Hr | Hr]; [| discriminate].
  cbn [bind]. rewrite factorial_of_nat. cbn [bind].
  rewrite float_of_fact_overflows by exact Hr. reflexivity.
Qed.

(** With one server the formula is that of the M/M/1 queue. *)
Lemma lq_erlang_mm1 (rho : Q) :
  0 <= rho -> rho < 1 -> lq_erlang rho 1 == rho ^ 2 / (1 - rho).
Proof.
  intros H0 H1. unfold lq_erlang, erlang_Pc, erlang_T, erlang_S, erlang_term.
  cbn [sum_upto]. cbv zeta.
  change (Z.of_nat 1) with 1%Z. change (Z.of_nat 0) with 0%Z.
  change (Z.of_nat (fact 1)) with 1%Z. change (Z.of_nat (fact 0)) with 1%Z.
  change (inject_Z 1) with 1.
  rewrite Qpower_1_r, Qpower_0_r.
  assert (rho ^ 2 == rho * rho) as -> by (simpl; ring).
  field. split; lra.
Qed.

(** The scenario [lambda = 100], [mu = 20], [c = 6]: [rho = 5/6] and
    [Lq] lies between [2.93] and [2.94]. *)
Example lq_scenario_100_20_6 :
  exists lq,
    calculate_rho (Fin 100) (Fin 20) 6 = Ok (Fin (100 / (inject_Z 6 * 20))) /\
    calculate_lq (Fin (100 / (inject_Z 6 * 20))) 6 = Ok (Fin lq) /\
    293 # 100 < lq < 294 # 100.
Proof.
  eexists. split; [reflexivity |]. split; [vm_compute; reflexivity |].
  split; vm_compute; reflexivity.
Qed.

(** ** Powers and the sum [S] as functions of the load *)




(** ** Closed forms of [Lq] *)



Lemma erlang_term_eq (a b : Q) (n : nat) :
  a == b -> erlang_term a n == erlang_term b n.
Proof. intros E. unfold erlang_term. rewrite E. reflexivity. Qed.

Lemma erlang_S_eq (a b : Q) (k : nat) : a == b -> erlang_S a k == erlang_S b k.
Proof.
  intros E. unfold erlang_S. induction k as [| k IH]; simpl; [reflexivity |].
  rewrite IH, (erlang_term_eq a b k E). reflexivity.
Qed.

(** The direct form agrees with the form through [Pc]. *)
Lemma lq_direct_erlang (rho : Q) (k : nat) :
  0 <= rho -> rho < 1 -> (1 <= k)%nat ->
  lq_direct (inject_Z (Z.of_nat k) * rho) rho k == lq_erlang rho k.
Proof.
  intros H0 H1 Hk.
  assert (0 <= inject_Z (Z.of_nat k) * rho) as Ha
    by (apply Qmult_le_0_compat; [apply inject_nat_nonneg | exact H0]).
  pose proof (erlang_den_pos _ rho k Ha H1 Hk) as Hden.
  pose proof (fact_Q_pos k) as HF.
  unfold lq_direct, lq_erlang, erlang_Pc. cbv zeta. unfold erlang_T in *.
  set (a := inject_Z (Z.of_nat k) * rho) in *.
  set (A := a ^ Z.of_nat k) in *. set (S := erlang_S a k) in *.
  set (F := inject_Z (Z.of_nat (fact k))) in *.
  assert ((1 - rho) ^ 2 == (1 - rho) * (1 - rho)) as -> by (simpl; ring).
  assert (0 < F * (1 - rho) * S + A) as Hd2.
  { assert (S + A / (F * (1 - rho)) == (F * (1 - rho) * S + A) / (F * (1 - rho)))
      as E by (field; split; lra).
    rewrite E in Hden.
    apply (Qmult_lt_r _ _ (F * (1 - rho))) in Hden;
      [| apply Qmult_lt_0_compat; lra].
    assert ((F * (1 - rho) * S + A) / (F * (1 - rho)) * (F * (1 - rho))
            == F * (1 - rho) * S + A) as E2 by (field; split; lra).
    lra. }
  field. repeat split; lra.
Qed.

(** ** [calculate_rho] and the guards of the sweep functions *)

Lemma calculate_rho_fin (lambda mu : Q) (c : Z) :
  ~ inject_Z c * mu == 0 ->
  calculate_rho (Fin lambda) (Fin mu) c = Ok (Fin (lambda / (inject_Z c * mu))).
Proof. intros H. unfold calculate_rho. cbn [fmul of_int]. apply fdiv_fin. exact H. Qed.

Lemma capacity_pos (mu : Q) (k : nat) :
  0 < mu -> (1 <= k)%nat -> 0 < inject_Z (Z.of_nat k) * mu.
Proof.
  intros Hm Hk. pose proof (inject_nat_pos k Hk).
  apply Qmult_lt_0_compat; lra.
Qed.

Lemma offered_load (lambda mu : Q) (k : nat) :
  0 < mu -> (1 <= k)%nat ->
  lambda / mu == inject_Z (Z.of_nat k) * (lambda / (inject_Z (Z.of_nat k) * mu)).
Proof.
  intros Hm Hk. pose proof (inject_nat_pos k Hk). field. split; lra.
Qed.

Lemma guard_stable (lambda mu : Q) (c : Z) :
  0 < mu -> lambda < inject_Z c * mu ->
  fge (Fin lambda) (fmul (of_int c) (Fin mu)) || fle (Fin mu) (of_int 0) = false.
Proof.
  intros Hm Hs. apply orb_false_iff. split.
  - apply fge_fin_false. exact Hs.
  - apply fle_fin_false. exact Hm.
Qed.

Lemma guard_unstable (lambda mu : Q) (c : Z) :
  inject_Z c * mu <= lambda \/ mu <= 0 ->
  fge (Fin lambda) (fmul (of_int c) (Fin mu)) || fle (Fin mu) (of_int 0) = true.
Proof.
  intros [H | H]; apply orb_true_iff.
  - left. apply fge_fin. exact H.
  - right. apply fle_fin. exact H.
Qed.

(** The test [arrival_rate == 0] on a finite rate. *)
Lemma feq_zero (lambda : Q) : feq (Fin lambda) (of_int 0) = Qeq_bool lambda 0.
Proof.
  change (of_int 0) with (Fin 0).
  destruct (Qeq_bool lambda 0) eqn:E.
  - apply feq_fin, Qeq_bool_iff. exact E.
  - destruct (feq (Fin lambda) (Fin 0)) eqn:E2; [| reflexivity].
    apply feq_fin, Qeq_bool_iff in E2. congruence.
Qed.

(** ** The [try] block and the [lq] assignment of
       [calculate_average_queue_time] *)

Lemma final_term_T (r rho : Q) (k : nat) :
  rho < 1 ->
  r ^ Z.of_nat k / inject_Z (Z.of_nat (fact k)) * (1 / (1 - rho))
  == erlang_T r rho k.
Proof.
  intros H1. pose proof (fact_Q_pos k). unfold erlang_T. field. split; lra.
Qed.

Lemma queue_time_p0_fin (lambda mu rho : Q) (k : nat) :
  0 <= lambda -> 0 < mu -> rho < 1 -> (1 <= k)%nat -> (k <= 170)%nat ->
  overflows ((lambda / mu) ^ Z.of_nat k) = false ->
  queue_time_p0 (Fin lambda) (Fin mu) (Fin rho) (Z.of_nat k)
  = Ok (Fin (lambda / mu),
        Fin (1 / (erlang_S (lambda / mu) k
                  + (lambda / mu) ^ Z.of_nat k / inject_Z (Z.of_nat (fact k))
                    * (1 / (1 - rho))))).
Proof.
  intros Hl Hm H1 Hk Hk' Ho. unfold queue_time_p0.
  assert (0 <= lambda / mu) as Hr
    by (apply Qle_shift_div_l; [exact Hm | lra]).
  rewrite fdiv_fin by lra. cbn [bind].
  rewrite sum_loop
    by (lia || (intros n Hn; apply (pow_fits_below _ n k); (lia || assumption))).
  cbn [bind].
  rewrite fpow_fin by (lia || assumption). cbn [bind].
  rewrite factorial_of_nat. cbn [bind].
  rewrite float_of_fact_fits by exact Hk'. cbn [bind].
  rewrite fdiv_fin by apply fact_Q_neq. cbn [bind].
  change (fsub (of_int 1) (Fin rho)) with (Fin (1 - rho)).
  change (of_int 1) with (Fin 1).
  rewrite fdiv_fin by lra. cbn [bind fmul fadd].
  rewrite fdiv_fin; [reflexivity |].
  rewrite final_term_T by exact H1.
  pose proof (erlang_den_pos _ rho k Hr H1 Hk). lra.
Qed.

(** Beyond [170] servers, or when [r^c] leaves the binary64 range, the
    [try] block raises [OverflowError], whatever [rho] is. *)
Lemma queue_time_p0_raises (a m rho : pyfloat) (r : Q) (k : nat) :
  fdiv a m = Ok (Fin r) ->
  (171 <= k)%nat \/ overflows (r ^ Z.of_nat k) = true ->
  queue_time_p0 a m rho (Z.of_nat k) = Raise OverflowError.
Proof.
  intros Hd Hr. unfold queue_time_p0.
  rewrite Hd. cbn [bind].
  destruct (sum_loop_outcome r k) as [-> | ->]; [reflexivity |].
  cbn [bind]. rewrite fpow_nonneg by lia.
  destruct (overflows (r ^ Z.of_nat k)) eqn:O; [reflexivity |].
  destruct Hr as [Hr | Hr]; [| discriminate].
  cbn [bind]. rewrite factorial_of_nat. cbn [bind].
  rewrite float_of_fact_overflows by exact Hr. reflexivity.
Qed.

Lemma square_fits (rho : Q) :
  0 <= rho -> rho < 1 -> overflows ((1 - rho) ^ 2) = false.
Proof.
  intros H0 H1. change 2%Z with (Z.of_nat 2).
  apply overflows_unit; [apply Qpower_0_le; lra |].
  apply Qle_trans with (1 ^ Z.of_nat 2);
    [apply Qpower_nat_le; lra | rewrite Qpower_1; apply Qle_refl].
Qed.

Lemma queue_time_lq_fin (r rho p0 : Q) (k : nat) :
  0 <= rho -> rho < 1 -> (k <= 170)%nat ->
  overflows (r ^ Z.of_nat k) = false ->
  queue_time_lq (Fin r) (Fin rho) (Fin p0) (Z.of_nat k)
  = Ok (Fin (r ^ Z.of_nat k * rho
             / (inject_Z (Z.of_nat (fact k)) * (1 - rho) ^ 2) * p0)).
Proof.
  intros H0 H1 Hk Ho. unfold queue_time_lq.
  rewrite fpow_fin by (lia || assumption). cbn [bind].
  rewrite factorial_of_nat. cbn [bind].
  change (fsub (of_int 1) (Fin rho)) with (Fin (1 - rho)).
  rewrite fpow_fin by (lia || (apply square_fits; assumption)). cbn [bind].
  rewrite float_of_fact_fits by exact Hk. cbn [bind fmul].
  rewrite fdiv_fin; [reflexivity |].
  pose proof (fact_Q_pos k) as HF.
  assert ((1 - rho) ^ 2 == (1 - rho) * (1 - rho)) as -> by (simpl; ring).
  assert (0 < (1 - rho) * (1 - rho)) by (apply Qmult_lt_0_compat; lra).
  assert (0 < inject_Z (Z.of_nat (fact k)) * ((1 - rho) * (1 - rho)))
    by (apply Qmult_lt_0_compat; lra).
  lra.
Qed.

(** ** The sweep functions on a stable load *)

Section StableLoad.

Variables (lambda mu : Q) (k : nat).
Hypothesis Hl : 0 <= lambda.
Hypothesis Hm : 0 < mu.
Hypothesis Hk : (1 <= k)%nat.
Hypothesis Hs : lambda < inject_Z (Z.of_nat k) * mu.

Local Abbreviation K := (inject_Z (Z.of_nat k)).
Local Abbreviation rho := (lambda / (K * mu)).
Local Abbreviation r := (lambda / mu).

Lemma rho_bounds : 0 <= rho < 1.
Proof.
  pose proof (capacity_pos mu k Hm Hk) as Hc. split.
  - apply Qle_shift_div_l; [exact Hc | lra].
  - apply Qlt_shift_div_r; [exact Hc | lra].
Qed.

(** The offered load [a = c * rho] of [calculate_lq] is the ratio
    [r = lambda / mu] of [calculate_average_queue_time]: their powers
    overflow together. *)
Lemma load_power_overflows :
  overflows ((K * rho) ^ Z.of_nat k) = overflows (r ^ Z.of_nat k).
Proof.
  apply overflows_eq. rewrite <- (offered_load lambda mu k Hm Hk). reflexivity.
Qed.

(** Both sweep functions pass their two guards and reach the [try]
    block with [rho = lambda / (c * mu)]. *)
Ltac pass_guards :=
  rewrite guard_stable by assumption;
  rewrite calculate_rho_fin
    by (pose proof (capacity_pos mu k Hm Hk); lra);
  cbn [bind];
  replace (fge (Fin rho) (Fin 1)) with false
    by (symmetry; apply fge_fin_false; apply rho_bounds).

(** The value bound to [lq] in [calculate_average_queue_time] is the
    direct form, hence [Lq] for the load [rho]. *)
Lemma queue_time_lq_erlang :
  r ^ Z.of_nat k * rho / (inject_Z (Z.of_nat (fact k)) * (1 - rho) ^ 2)
  * (1 / (erlang_S r k
          + r ^ Z.of_nat k / inject_Z (Z.of_nat (fact k)) * (1 / (1 - rho))))
  == lq_erlang rho k.
Proof.
  destruct rho_bounds as [R0 R1].
  rewrite <- (lq_direct_erlang rho k R0 R1 Hk).
  rewrite final_term_T by exact R1.
  assert (r == K * rho) as E by (apply offered_load; assumption).
  unfold lq_direct, erlang_T.
  rewrite (erlang_S_eq _ _ k E), E. reflexivity.
Qed.

(** Beyond [170] servers, or when [r^c] leaves the binary64 range, the
    [OverflowError] raised inside the [try] block is caught and both
    sweep functions return [nan]. *)
Lemma sweep_overflow_nan :
  (171 <= k)%nat \/ overflows (r ^ Z.of_nat k) = true ->
  calculate_average_queue_time (Fin lambda) (Fin mu) (Z.of_nat k) = Ok NaN /\
  calculate_wq_for_plot (Fin lambda) (Fin mu) (Z.of_nat k) = Ok NaN.
Proof.
  intros Hr. destruct rho_bounds as [R0 R1]. split.
  - unfold calculate_average_queue_time. pass_guards.
    rewrite (queue_time_p0_raises _ _ _ r) by ((apply fdiv_fin; lra) || exact Hr).
    reflexivity.
  - unfold calculate_wq_for_plot. pass_guards.
    rewrite calculate_lq_raises; [reflexivity | exact R1 |].
    rewrite load_power_overflows. exact Hr.
Qed.

Hypothesis Hk' : (k <= 170)%nat.
Hypothesis Ho : overflows (r ^ Z.of_nat k) = false.

(** [calculate_average_queue_time] obeys Little's law, [Wq = Lq / lambda]. *)
Lemma calculate_average_queue_time_stable :
  exists lq,
    lq == lq_erlang rho k /\
    calculate_average_queue_time (Fin lambda) (Fin mu) (Z.of_nat k)
    = if Qeq_bool lambda 0 then Ok (Fin 0) else Ok (Fin (lq / lambda)).
Proof.
  destruct rho_bounds as [R0 R1].
  eexists. split; [apply queue_time_lq_erlang |].
  unfold calculate_average_queue_time. pass_guards.
  rewrite queue_time_p0_fin by assumption. cbn [try_nan].
  rewrite queue_time_lq_fin by assumption. cbn [bind].
  rewrite feq_zero.
  destruct (Qeq_bool lambda 0) eqn:E; [reflexivity |].
  apply fdiv_fin, Qeq_bool_neq. exact E.
Qed.

(** [calculate_wq_for_plot] returns [Lq / mu]. *)
Lemma calculate_wq_for_plot_stable :
  calculate_wq_for_plot (Fin lambda) (Fin mu) (Z.of_nat k)
  = if Qeq_bool lambda 0 then Ok (Fin 0)
    else Ok (Fin (lq_erlang rho k / mu)).
Proof.
  destruct rho_bounds as [R0 R1].
  unfold calculate_wq_for_plot. pass_guards.
  rewrite calculate_lq_stable
    by (assumption || (rewrite load_power_overflows; exact Ho)).
  cbn [bind]. unfold calculate_wq.
  rewrite fdiv_fin by lra. cbn [try_nan].
  rewrite feq_zero. reflexivity.
Qed.

End StableLoad.

Lemma sweep_unstable (lambda mu : Q) (c : Z) :
  inject_Z c * mu <= lambda \/ mu <= 0 ->
  calculate_average_queue_time (Fin lambda) (Fin mu) c = Ok NaN /\
  calculate_wq_for_plot (Fin lambda) (Fin mu) c = Ok NaN.
Proof.
  intros H. unfold calculate_average_queue_time, calculate_wq_for_plot.
  rewrite guard_unstable by exact H. split; reflexivity.
Qed.

(** The server count of a claim is an integer [c >= 1]; the lemmas above
    index it by a natural number. *)
Ltac servers_as_nat c k Hk :=
  rewrite <- (Z2Nat.id c) in * by lia;
  set (k := Z.to_nat c) in *;
  assert (1 <= k)%nat as Hk by lia.

Lemma zero_load_power_fits (lambda mu : Q) (k : nat) :
  lambda == 0 -> overflows ((lambda / mu) ^ Z.of_nat k) = false.
Proof.
  intros E.
  assert (lambda / mu == 0) as E0 by (rewrite E; unfold Qdiv; ring).
  rewrite (overflows_eq _ (0 ^ Z.of_nat k)) by (rewrite E0; reflexivity).
  apply overflows_unit; [apply Qpower_0_le; apply Qle_refl |].
  apply Qle_trans with (1 ^ Z.of_nat k);
    [apply Qpower_nat_le; lra | rewrite Qpower_1; apply Qle_refl].
Qed.

(** * The claims *)

(** C1, the claim as written fails: with [c = 171] servers and
    [rho = 1/2], inside the claim's domain, [calculate_lq] returns
    nothing and raises [OverflowError]. *)
Lemma calculate_lq_overflow_171 :
  0 <= 1 # 2 /\ 1 # 2 < 1 /\ (1 <= 171)%Z /\
  calculate_lq (Fin (1 # 2)) 171 = Raise OverflowError.
Proof.
  split; [lra |]. split; [lra |]. split; [lia |].
  apply (calculate_lq_raises (1 # 2) 171); [lra | left; lia].
Qed.

(** C1, amended: for every [rho] with [0 <= rho < 1] and every integer
    [1 <= c <= 170] such that [(c * rho)^c] fits in a [float],
    [calculate_lq rho c] returns [Pc * rho / (1 - rho)], where
    [a = c * rho], [S] is the sum of [a^n / n!] for [n < c],
    [T = a^c / (c! * (1 - rho))] and [Pc = T / (S + T)]. *)
Theorem calculate_lq_erlang_c (rho : Q) (c : Z) :
  0 <= rho -> rho < 1 -> (1 <= c <= 170)%Z ->
  overflows ((inject_Z c * rho) ^ c) = false ->
  let a := inject_Z c * rho in
  let S := erlang_S a (Z.to_nat c) in
  let T := erlang_T a rho (Z.to_nat c) in
  let Pc := T / (S + T) in
  exists lq, calculate_lq (Fin rho) c = Ok (Fin lq) /\ lq == Pc * rho / (1 - rho).
Proof.
  intros H0 H1 Hc Ho. cbv zeta.
  exists (lq_erlang rho (Z.to_nat c)). split.
  - rewrite <- (Z2Nat.id c) in Ho |- * at 1 by lia.
    apply calculate_lq_stable; (assumption || lia).
  - unfold lq_erlang, erlang_Pc. cbv zeta. rewrite Z2Nat.id by lia. reflexivity.
Qed.

Lemma calculate_lq_erlang_c_witness :
  exists lq,
    calculate_lq (Fin (1 # 2)) 2 = Ok (Fin lq) /\
    lq == erlang_T (inject_Z 2 * (1 # 2)) (1 # 2) 2
          / (erlang_S (inject_Z 2 * (1 # 2)) 2
             + erlang_T (inject_Z 2 * (1 # 2)) (1 # 2) 2)
          * (1 # 2) / (1 - (1 # 2)).
Proof.
  apply (calculate_lq_erlang_c (1 # 2) 2); [lra | lra | lia | reflexivity].
Defined.
(** C2: on an unstable load every entry point returns its sentinel and
    raises nothing: [calculate_lq] returns [inf] when [rho >= 1], and the
    two sweep functions return [nan] when [lambda >= c * mu] or [mu <= 0]. *)
Theorem unstable_load_sentinel (rho lambda mu : Q) (c : Z) :
  (1 <= rho -> calculate_lq (Fin rho) c = Ok PInf) /\
  (inject_Z c * mu <= lambda \/ mu <= 0 ->
   calculate_average_queue_time (Fin lambda) (Fin mu) c = Ok NaN /\
   calculate_wq_for_plot (Fin lambda) (Fin mu) c = Ok NaN).
Proof.
  split.
  - intros H. unfold calculate_lq.
    replace (fge (Fin rho) (of_int 1)) with true
      by (symmetry; apply fge_fin; exact H).
    reflexivity.
  - apply sweep_unstable.
Qed.

Lemma unstable_load_sentinel_witness :
  calculate_lq (Fin (13 # 12)) 6 = Ok PInf /\
  calculate_average_queue_time (Fin 130) (Fin 20) 6 = Ok NaN /\
  calculate_wq_for_plot (Fin 130) (Fin 20) 6 = Ok NaN.
Proof.
  destruct (unstable_load_sentinel (13 # 12) 130 20 6) as [H1 H2].
  split; [apply H1; lra | apply H2; left; vm_compute; discriminate].
Defined.

(** C3 (the code departs from it): at [lambda = 1], [mu = 2], [c = 1] the
    load is [rho = 1/2] and [Lq = 1/2]; [calculate_average_queue_time]
    returns [Lq / lambda = 1/2], whereas [calculate_wq_for_plot] returns
    [Lq / mu = 1/4], which is not [Lq / lambda]. *)
Theorem calculate_wq_for_plot_divides_by_mu :
  exists rho lq wq_contour wq_plot,
    calculate_rho (Fin 1) (Fin 2) 1 = Ok (Fin rho) /\
    calculate_lq (Fin rho) 1 = Ok (Fin lq) /\
    calculate_average_queue_time (Fin 1) (Fin 2) 1 = Ok (Fin wq_contour) /\
    calculate_wq_for_plot (Fin 1) (Fin 2) 1 = Ok (Fin wq_plot) /\
    wq_contour == lq / 1 /\
    wq_plot == lq / 2 /\
    ~ wq_plot == lq / 1.
Proof.
  do 4 eexists. repeat split; try (vm_compute; reflexivity).
  vm_compute. discriminate.
Qed.

(** C4, the claim as written fails: at [lambda = 1], [mu = 1] and
    [c = 171] the load [rho = 1/171] is inside the claim's domain, but
    neither form yields a value: [calculate_lq] and the [try] block of
    [calculate_average_queue_time] both raise [OverflowError]. *)
Lemma lq_forms_overflow_171 :
  0 < 1 / (inject_Z 171 * 1) < 1 /\
  calculate_rho (Fin 1) (Fin 1) 171 = Ok (Fin (1 / (inject_Z 171 * 1))) /\
  calculate_lq (Fin (1 / (inject_Z 171 * 1))) 171 = Raise OverflowError /\
  queue_time_p0 (Fin 1) (Fin 1) (Fin (1 / (inject_Z 171 * 1))) 171
  = Raise OverflowError.
Proof.
  split; [split; reflexivity |].
  split; [apply calculate_rho_fin; discriminate |].
  split.
  - apply (calculate_lq_raises _ 171); [reflexivity | left; lia].
  - apply (queue_time_p0_raises _ _ _ (1 / 1) 171); [reflexivity | left; lia].
Qed.

(** C4, amended: on a stable load with [lambda > 0], up to [170] servers
    and as long as [(lambda / mu)^c] fits in a [float], the queue length
    that [calculate_lq] computes through [Pc] and the one that
    [calculate_average_queue_time] computes through [P0] are the same
    value; the first is [Pc * rho / (1 - rho)], the second
    [(a^c * rho / (c! * (1 - rho)^2)) * P0] with [P0 = 1 / (S + T)]. *)
Theorem lq_forms_agree (lambda mu : Q) (c : Z) :
  0 < lambda -> 0 < mu -> (1 <= c <= 170)%Z -> lambda < inject_Z c * mu ->
  overflows ((lambda / mu) ^ c) = false ->
  exists rho r p0 lq_pc lq_p0,
    calculate_rho (Fin lambda) (Fin mu) c = Ok (Fin rho) /\
    0 < rho < 1 /\
    calculate_lq (Fin rho) c = Ok (Fin lq_pc) /\
    queue_time_p0 (Fin lambda) (Fin mu) (Fin rho) c = Ok (Fin r, Fin p0) /\
    queue_time_lq (Fin r) (Fin rho) (Fin p0) c = Ok (Fin lq_p0) /\
    lq_pc == lq_erlang rho (Z.to_nat c) /\
    lq_p0 == lq_direct r rho (Z.to_nat c) /\
    lq_pc == lq_p0.
Proof.
  intros Hl Hm Hc Hs Ho.
  servers_as_nat c k Hk.
  rewrite Nat2Z.id.
  assert (k <= 170)%nat as Hk' by lia.
  assert (0 <= lambda) as Hl0 by lra.
  destruct (rho_bounds lambda mu k Hl0 Hm Hk Hs) as [R0 R1].
  pose proof (capacity_pos mu k Hm Hk) as Hcap.
  pose proof (queue_time_lq_erlang lambda mu k Hl0 Hm Hk Hs) as HE.
  pose proof (load_power_overflows lambda mu k Hm Hk) as HO.
  set (rho := lambda / (inject_Z (Z.of_nat k) * mu)) in *.
  do 5 eexists.
  split; [apply calculate_rho_fin; lra |].
  split.
  { split; [| exact R1]. apply Qlt_shift_div_l; [exact Hcap | lra]. }
  split; [apply calculate_lq_stable; (assumption || exact (eq_trans HO Ho)) |].
  split; [apply queue_time_p0_fin; assumption |].
  split; [apply queue_time_lq_fin; assumption |].
  split; [reflexivity |].
  split.
  - unfold lq_direct. rewrite final_term_T by exact R1. reflexivity.
  - symmetry. exact HE.
Qed.

Lemma lq_forms_agree_witness :
  exists rho r p0 lq_pc lq_p0,
    calculate_rho (Fin 100) (Fin 20) 6 = Ok (Fin rho) /\
    0 < rho < 1 /\
    calculate_lq (Fin rho) 6 = Ok (Fin lq_pc) /\
    queue_time_p0 (Fin 100) (Fin 20) (Fin rho) 6 = Ok (Fin r, Fin p0) /\
    queue_time_lq (Fin r) (Fin rho) (Fin p0) 6 = Ok (Fin lq_p0) /\
    lq_pc == lq_erlang rho (Z.to_nat 6) /\
    lq_p0 == lq_direct r rho (Z.to_nat 6) /\
    lq_pc == lq_p0.
Proof.
  apply (lq_forms_agree 100 20 6);
    [lra | lra | lia | vm_compute; reflexivity | vm_compute; reflexivity].
Defined.

(** C5, the claim as written fails: at [lambda = 1], [mu = 1] and
    [c = 171], where [rho = 1/171 < 1], [calculate_lq] gives no finite
    [Lq]: it raises [OverflowError]. *)
Lemma metrics_overflow_171 :
  0 <= 1 /\ 0 < 1 /\ (1 <= 171)%Z /\ 1 / (inject_Z 171 * 1) < 1 /\
  calculate_rho (Fin 1) (Fin 1) 171 = Ok (Fin (1 / (inject_Z 171 * 1))) /\
  calculate_lq (Fin (1 / (inject_Z 171 * 1))) 171 = Raise OverflowError.
Proof.
  split; [lra |]. split; [lra |]. split; [lia |]. split; [reflexivity |].
  split; [apply calculate_rho_fin; discriminate |].
  apply (calculate_lq_raises _ 171); [reflexivity | left; lia].
Qed.

(** C5, amended: for [lambda >= 0], [mu > 0], an integer
    [1 <= c <= 170] with [(lambda / mu)^c] fitting in a [float] and
    [rho = lambda / (c * mu) < 1], the metrics [Lq], [Wq], [L] and [W]
    obtained from [calculate_lq], [calculate_wq], [calculate_l] and
    [calculate_w] are all finite and non-negative. *)
Theorem metrics_finite_nonneg (lambda mu : Q) (c : Z) :
  0 <= lambda -> 0 < mu -> (1 <= c <= 170)%Z ->
  lambda / (inject_Z c * mu) < 1 ->
  overflows ((lambda / mu) ^ c) = false ->
  exists rho lq wq l w,
    calculate_rho (Fin lambda) (Fin mu) c = Ok (Fin rho) /\
    calculate_lq (Fin rho) c = Ok (Fin lq) /\
    calculate_wq (Fin lq) (Fin mu) = Ok (Fin wq) /\
    calculate_l (Fin lq) (Fin rho) c = Ok (Fin l) /\
    calculate_w (Fin wq) (Fin mu) = Ok (Fin w) /\
    0 <= lq /\ 0 <= wq /\ 0 <= l /\ 0 <= w.
Proof.
  intros Hl Hm Hc Hr Ho.
  servers_as_nat c k Hk.
  assert (k <= 170)%nat as Hk' by lia.
  pose proof (capacity_pos mu k Hm Hk) as Hcap.
  pose proof (load_power_overflows lambda mu k Hm Hk) as HO.
  assert (0 <= lambda / (inject_Z (Z.of_nat k) * mu)) as R0
    by (apply Qle_shift_div_l; [exact Hcap | lra]).
  set (rho := lambda / (inject_Z (Z.of_nat k) * mu)) in *.
  pose proof (lq_erlang_nonneg rho k R0 Hr Hk) as HL.
  assert (0 <= lq_erlang rho k / mu) as HW
    by (apply Qle_shift_div_l; [exact Hm | lra]).
  assert (0 <= inject_Z (Z.of_nat k) * rho) as HA
    by (apply Qmult_le_0_compat; [apply inject_nat_nonneg | exact R0]).
  assert (0 < 1 / mu) as HI by (apply Qlt_shift_div_l; [exact Hm | lra]).
  exists rho, (lq_erlang rho k), (lq_erlang rho k / mu),
    (lq_erlang rho k + inject_Z (Z.of_nat k) * rho),
    (lq_erlang rho k / mu + 1 / mu).
  split; [apply calculate_rho_fin; lra |].
  split; [apply calculate_lq_stable; (assumption || exact (eq_trans HO Ho)) |].
  split; [unfold calculate_wq; apply fdiv_fin; lra |].
  split; [reflexivity |].
  split.
  { unfold calculate_w. change (of_int 1) with (Fin 1).
    rewrite fdiv_fin by lra. reflexivity. }
  repeat split; lra.
Qed.

Lemma metrics_finite_nonneg_witness :
  exists rho lq wq l w,
    calculate_rho (Fin 100) (Fin 20) 6 = Ok (Fin rho) /\
    calculate_lq (Fin rho) 6 = Ok (Fin lq) /\
    calculate_wq (Fin lq) (Fin 20) = Ok (Fin wq) /\
    calculate_l (Fin lq) (Fin rho) 6 = Ok (Fin l) /\
    calculate_w (Fin wq) (Fin 20) = Ok (Fin w) /\
    0 <= lq /\ 0 <= wq /\ 0 <= l /\ 0 <= w.
Proof.
  apply (metrics_finite_nonneg 100 20 6);
    [lra | lra | lia | vm_compute; reflexivity | vm_compute; reflexivity].
Defined.
(** C6: for [lambda >= 0], [mu > 0] and an integer [c >= 1],
    [calculate_lambda (calculate_rho lambda mu c) mu c] gives back
    [lambda], and for [lambda > 0] also
    [calculate_mu lambda (calculate_rho lambda mu c) c] gives back [mu]. *)
Theorem rho_round_trip (lambda mu : Q) (c : Z) :
  0 <= lambda -> 0 < mu -> (1 <= c)%Z ->
  exists rho lambda',
    calculate_rho (Fin lambda) (Fin mu) c = Ok (Fin rho) /\
    calculate_lambda (Fin rho) (Fin mu) c = Ok (Fin lambda') /\
    lambda' == lambda /\
    (0 < lambda ->
     exists mu', calculate_mu (Fin lambda) (Fin rho) c = Ok (Fin mu') /\ mu' == mu).
Proof.
  intros Hl Hm Hc.
  assert (1 <= inject_Z c) as HC
    by (replace 1 with (inject_Z 1) by reflexivity; rewrite <- Zle_Qle; exact Hc).
  assert (0 < inject_Z c * mu) as Hcap by (apply Qmult_lt_0_compat; lra).
  exists (lambda / (inject_Z c * mu)), (lambda / (inject_Z c * mu) * inject_Z c * mu).
  split; [apply calculate_rho_fin; lra |].
  split; [reflexivity |].
  split; [field; split; lra |].
  intros Hpos. exists (lambda / (lambda / (inject_Z c * mu) * inject_Z c)).
  split.
  - unfold calculate_mu. cbn [fmul of_int]. apply fdiv_fin.
    assert (lambda / (inject_Z c * mu) * inject_Z c == lambda / mu) as ->
      by (field; split; lra).
    assert (0 < lambda / mu) by (apply Qlt_shift_div_l; [exact Hm | lra]).
    lra.
  - field. repeat split; lra.
Qed.

Lemma rho_round_trip_witness :
  exists rho lambda',
    calculate_rho (Fin 100) (Fin 20) 6 = Ok (Fin rho) /\
    calculate_lambda (Fin rho) (Fin 20) 6 = Ok (Fin lambda') /\
    lambda' == 100 /\
    exists mu', calculate_mu (Fin 100) (Fin rho) 6 = Ok (Fin mu') /\ mu' == 20.
Proof.
  destruct (rho_round_trip 100 20 6) as (rho & l & H1 & H2 & H3 & H4);
    [lra | lra | lia |].
  exists rho, l. repeat split; try assumption. apply H4. lra.
Defined.




(** C8, the claim as written fails: with no arrivals, [mu = 1] and
    [c = 171] servers, both sweep functions return [nan], not [0.0]: the
    [OverflowError] of the factorial term is raised, and caught, before
    the test [arrival_rate == 0] is reached. *)
Lemma no_arrivals_nan_171 :
  0 < 1 /\ (1 <= 171)%Z /\
  calculate_average_queue_time (Fin 0) (Fin 1) 171 = Ok NaN /\
  calculate_wq_for_plot (Fin 0) (Fin 1) 171 = Ok NaN.
Proof.
  split; [lra |]. split; [lia |].
  apply (sweep_overflow_nan 0 1 171);
    [lra | lra | lia | reflexivity | left; lia].
Qed.

(** C8, amended: with no arrivals ([lambda = 0]), [mu > 0] and an integer
    [1 <= c <= 170], both sweep functions return exactly [0.0]: no
    exception, no [nan], and no division by [lambda]. *)
Theorem no_arrivals_no_wait (lambda mu : Q) (c : Z) :
  lambda == 0 -> 0 < mu -> (1 <= c <= 170)%Z ->
  calculate_average_queue_time (Fin lambda) (Fin mu) c = Ok (Fin 0) /\
  calculate_wq_for_plot (Fin lambda) (Fin mu) c = Ok (Fin 0).
Proof.
  intros Hl Hm Hc.
  servers_as_nat c k Hk.
  assert (k <= 170)%nat as Hk' by lia.
  pose proof (capacity_pos mu k Hm Hk) as Hcap.
  assert (0 <= lambda) as Hl0 by lra.
  assert (lambda < inject_Z (Z.of_nat k) * mu) as Hs by lra.
  pose proof (zero_load_power_fits lambda mu k Hl) as Ho.
  assert (Qeq_bool lambda 0 = true) as E by (apply Qeq_bool_iff; exact Hl).
  split.
  - destruct (calculate_average_queue_time_stable lambda mu k Hl0 Hm Hk Hs Hk' Ho)
      as (lq & _ & H).
    rewrite H, E. reflexivity.
  - rewrite calculate_wq_for_plot_stable by assumption. rewrite E. reflexivity.
Qed.

Lemma no_arrivals_no_wait_witness :
  calculate_average_queue_time (Fin 0) (Fin 20) 6 = Ok (Fin 0) /\
  calculate_wq_for_plot (Fin 0) (Fin 20) 6 = Ok (Fin 0).
Proof.
  apply (no_arrivals_no_wait 0 20 6); [reflexivity | lra | lia].
Defined.

(** C9, the claim as written fails: with [c = 0] servers and
    [rho = 1/2], [calculate_lq] raises nothing and returns the finite
    number [1]. *)
Lemma calculate_lq_zero_servers_returns :
  (0 < 1)%Z /\
  (exists lq, calculate_lq (Fin (1 # 2)) 0 = Ok (Fin lq) /\ lq == 1) /\
  ~ raises (calculate_lq (Fin (1 # 2)) 0).
Proof.
  split; [lia |]. split.
  - eexists. split; [vm_compute; reflexivity | reflexivity].
  - intros [e H]. vm_compute in H. discriminate.
Qed.

(** C9, amended: [calculate_wq lq 0] raises [ZeroDivisionError] for every
    [lq]; on a load [rho < 1], [calculate_lq] raises for every negative
    [c]: [ZeroDivisionError] from the negative power of zero when
    [rho = 0], otherwise [OverflowError] when the negative power
    [(c * rho)^c] leaves the binary64 range and [ValueError] from
    [math.factorial] when it does not; for [c = 0] it raises nothing and
    returns [rho / (1 - rho)]. *)
Theorem static_parameter_errors (lq : pyfloat) (rho : Q) (c : Z) :
  calculate_wq lq (Fin 0) = Raise ZeroDivisionError /\
  (rho < 1 -> (c < 0)%Z ->
   calculate_lq (Fin rho) c
   = Raise (if Qeq_bool rho 0 then ZeroDivisionError
            else if overflows ((inject_Z c * rho) ^ c) then OverflowError
                 else ValueError)) /\
  (rho < 1 ->
   exists v, calculate_lq (Fin rho) 0 = Ok (Fin v) /\ v == rho / (1 - rho)).
Proof.
  split; [reflexivity |]. split.
  - intros H1 Hc. unfold calculate_lq.
    replace (fge (Fin rho) (of_int 1)) with false
      by (symmetry; apply fge_fin_false; exact H1).
    rewrite range_nonpos by lia. cbn [for_in bind fmul of_int].
    unfold fpow.
    replace (c =? 0)%Z with false by (symmetry; apply Z.eqb_neq; lia).
    replace (c <? 0)%Z with true by (symmetry; apply Z.ltb_lt; exact Hc).
    rewrite andb_true_r.
    assert (inject_Z c < 0) as HC
      by (replace 0 with (inject_Z 0) by reflexivity; rewrite <- Zlt_Qlt; exact Hc).
    destruct (Qeq_bool rho 0) eqn:E.
    + apply Qeq_bool_iff in E.
      assert (Qeq_bool (inject_Z c * rho) 0 = true) as ->
        by (apply Qeq_bool_iff; rewrite E; ring).
      reflexivity.
    + assert (~ rho == 0) as N by (apply Qeq_bool_neq; exact E).
      assert (Qeq_bool (inject_Z c * rho) 0 = false) as ->.
      { destruct (Qeq_bool (inject_Z c * rho) 0) eqn:E2; [| reflexivity].
        apply Qeq_bool_iff in E2. apply Qmult_integral in E2.
        destruct E2 as [E2 | E2]; [lra | contradiction]. }
      destruct (overflows ((inject_Z c * rho) ^ c)); [reflexivity |].
      cbn [bind]. rewrite factorial_neg by exact Hc. reflexivity.
  - intros H1. unfold calculate_lq.
    replace (fge (Fin rho) (of_int 1)) with false
      by (symmetry; apply fge_fin_false; exact H1).
    cbn [range Z.to_nat seq map for_in bind fpow Z.eqb factorial Z.ltb Z.compare].
    change (float_of_int (fact_Z 0)) with (Ok (Fin 1)).
    cbn [bind fmul fsub fadd fneg of_int].
    change (inject_Z 1) with 1.
    rewrite fdiv_fin by lra. cbn [bind fadd].
    assert (0 < 1 / (1 * (1 + - rho))) as P
      by (apply Qlt_shift_div_l; lra).
    rewrite fdiv_fin by lra. cbn [bind fmul].
    rewrite fdiv_fin by lra.
    eexists. split; [reflexivity |].
    field. repeat split; lra.
Qed.

Lemma static_parameter_errors_witness :
  calculate_wq (Fin 3) (Fin 0) = Raise ZeroDivisionError /\
  calculate_lq (Fin (1 # 2)) (-1) = Raise ValueError /\
  exists v, calculate_lq (Fin (1 # 2)) 0 = Ok (Fin v) /\ v == (1 # 2) / (1 - (1 # 2)).
Proof.
  destruct (static_parameter_errors (Fin 3) (1 # 2) (-1)) as (H1 & H2 & H3).
  split; [exact H1 |].
  split; [apply H2; [lra | lia] | apply H3; lra].
Defined.

(** C10: for [lambda >= 0], every [mu] and every integer [c >= 1], both
    sweep functions return, without raising, a value that is a finite
    number or the [nan] sentinel: the guards keep every divisor away
    from zero, and the [OverflowError] of a power or of a factorial
    beyond the binary64 range is raised inside the [try] block, where it
    is caught and turned into [nan]. *)
Theorem sweep_total (lambda mu : Q) (c : Z) :
  0 <= lambda -> (1 <= c)%Z ->
  exists v w,
    calculate_average_queue_time (Fin lambda) (Fin mu) c = Ok v /\
    calculate_wq_for_plot (Fin lambda) (Fin mu) c = Ok w /\
    finite_or_nan v = true /\ finite_or_nan w = true.
Proof.
  intros Hl Hc.
  destruct (Qlt_le_dec 0 mu) as [Hm | Hm].
  - destruct (Qlt_le_dec lambda (inject_Z c * mu)) as [Hs | Hs].
    + servers_as_nat c k Hk.
      destruct (le_lt_dec k 170) as [Hk' | Hk'].
      * destruct (overflows ((lambda / mu) ^ Z.of_nat k)) eqn:Ho.
        -- destruct (sweep_overflow_nan lambda mu k Hl Hm Hk Hs (or_intror Ho))
             as [H1 H2].
           exists NaN, NaN. rewrite H1, H2. repeat split.
        -- destruct (calculate_average_queue_time_stable
                       lambda mu k Hl Hm Hk Hs Hk' Ho) as (lq & _ & H).
           rewrite H, calculate_wq_for_plot_stable by assumption.
           destruct (Qeq_bool lambda 0); do 2 eexists; repeat split.
      * destruct (sweep_overflow_nan lambda mu k Hl Hm Hk Hs (or_introl Hk'))
          as [H1 H2].
        exists NaN, NaN. rewrite H1, H2. repeat split.
    + destruct (sweep_unstable lambda mu c (or_introl Hs)) as [H1 H2].
      exists NaN, NaN. rewrite H1, H2. repeat split.
  - destruct (sweep_unstable lambda mu c (or_intror Hm)) as [H1 H2].
    exists NaN, NaN. rewrite H1, H2. repeat split.
Qed.

Lemma sweep_total_witness :
  exists v w,
    calculate_average_queue_time (Fin 100) (Fin 20) 6 = Ok v /\
    calculate_wq_for_plot (Fin 100) (Fin 20) 6 = Ok w /\
    finite_or_nan v = true /\ finite_or_nan w = true.
Proof.
  apply (sweep_total 100 20 6); [lra | lia].
Defined.
(** * Further properties of the code *)

(** ** Helper facts *)

Lemma inject_Z_zero_iff (c : Z) : inject_Z c == 0 <-> c = 0%Z.
Proof.
  unfold Qeq. simpl. split; intros H; lia.
Qed.

Lemma capacity_zero_iff (mu : Q) (c : Z) :
  inject_Z c * mu == 0 <-> c = 0%Z \/ mu == 0.
Proof.
  split.
  - intros H. apply Qmult_integral in H. destruct H as [H | H]; [left | right].
    + apply inject_Z_zero_iff. exact H.
    + exact H.
  - intros [H | H].
    + subst c. ring.
    + rewrite H. ring.
Qed.

(** ** Utilization and its inverses *)
(** X2: [calculate_mu] raises [ZeroDivisionError] exactly when [rho = 0]
    or [c = 0].  So with no arrivals the service rate cannot be recovered:
    for [mu <> 0] and [c <> 0], [calculate_rho 0 mu c] returns a zero load
    and [calculate_mu 0] of that load raises. *)
Theorem calculate_mu_zero_division (lambda rho mu : Q) (c : Z) :
  (calculate_mu (Fin lambda) (Fin rho) c = Raise ZeroDivisionError
   <-> rho == 0 \/ c = 0%Z) /\
  (lambda == 0 -> ~ mu == 0 -> c <> 0%Z ->
   exists rho0,
     calculate_rho (Fin lambda) (Fin mu) c = Ok (Fin rho0) /\
     calculate_mu (Fin lambda) (Fin rho0) c = Raise ZeroDivisionError).
Proof.
  assert (forall r : Q,
            calculate_mu (Fin lambda) (Fin r) c = Raise ZeroDivisionError
            <-> r == 0 \/ c = 0%Z) as Hmu.
  { intros r. unfold calculate_mu. cbn [fmul of_int]. split.
    - intros H. destruct (Qeq_dec (r * inject_Z c) 0) as [E | N].
      + apply Qmult_integral in E. destruct E as [E | E]; [left; exact E |].
        right. apply inject_Z_zero_iff. exact E.
      + rewrite fdiv_fin in H by exact N. discriminate.
    - intros H. apply fdiv_zero. destruct H as [H | H].
      + rewrite H. ring.
      + subst c. ring. }
  split; [apply Hmu |].
  intros Hl Hm Hc.
  assert (~ inject_Z c * mu == 0) as N
    by (intros E; apply capacity_zero_iff in E; tauto).
  exists (lambda / (inject_Z c * mu)).
  split; [apply calculate_rho_fin; exact N |].
  apply Hmu. left. rewrite Hl. field.
  split; [exact Hm | rewrite inject_Z_zero_iff; exact Hc].
Qed.

Lemma calculate_mu_zero_division_witness :
  calculate_mu (Fin 7) (Fin 0) 4 = Raise ZeroDivisionError /\
  exists rho0,
    calculate_rho (Fin 0) (Fin 20) 6 = Ok (Fin rho0) /\
    calculate_mu (Fin 0) (Fin rho0) 6 = Raise ZeroDivisionError.
Proof.
  split.
  - apply (calculate_mu_zero_division 7 0 1 4). left. reflexivity.
  - apply (calculate_mu_zero_division 0 0 20 6); [reflexivity | lra | lia].
Defined.

(** X3: starting from a load, [calculate_lambda] then [calculate_rho] gives
    the load back, for every [mu <> 0] and [c <> 0] of either sign. *)
Theorem lambda_rho_round_trip (rho mu : Q) (c : Z) :
  ~ mu == 0 -> c <> 0%Z ->
  exists lambda rho',
    calculate_lambda (Fin rho) (Fin mu) c = Ok (Fin lambda) /\
    calculate_rho (Fin lambda) (Fin mu) c = Ok (Fin rho') /\
    rho' == rho.
Proof.
  intros Hm Hc.
  assert (~ inject_Z c == 0) as NC by (rewrite inject_Z_zero_iff; exact Hc).
  assert (~ inject_Z c * mu == 0) as N
    by (intros E; apply capacity_zero_iff in E; tauto).
  exists (rho * inject_Z c * mu), (rho * inject_Z c * mu / (inject_Z c * mu)).
  split; [reflexivity |].
  split; [apply calculate_rho_fin; exact N |].
  field. split; assumption.
Qed.

Lemma lambda_rho_round_trip_witness :
  exists lambda rho',
    calculate_lambda (Fin (5 # 6)) (Fin 20) 6 = Ok (Fin lambda) /\
    calculate_rho (Fin lambda) (Fin 20) 6 = Ok (Fin rho') /\
    rho' == 5 # 6.
Proof.
  apply (lambda_rho_round_trip (5 # 6) 20 6); [lra | lia].
Defined.

(** X4: starting from a load [rho <> 0], [calculate_lambda] then
    [calculate_mu] gives the service rate back, for every [c <> 0]. *)
Theorem lambda_mu_round_trip (rho mu : Q) (c : Z) :
  ~ rho == 0 -> c <> 0%Z ->
  exists lambda mu',
    calculate_lambda (Fin rho) (Fin mu) c = Ok (Fin lambda) /\
    calculate_mu (Fin lambda) (Fin rho) c = Ok (Fin mu') /\
    mu' == mu.
Proof.
  intros Hr Hc.
  assert (~ inject_Z c == 0) as NC by (rewrite inject_Z_zero_iff; exact Hc).
  assert (~ rho * inject_Z c == 0) as N.
  { intros E. apply Qmult_integral in E. tauto. }
  exists (rho * inject_Z c * mu), (rho * inject_Z c * mu / (rho * inject_Z c)).
  split; [reflexivity |].
  split; [unfold calculate_mu; cbn [fmul of_int]; apply fdiv_fin; exact N |].
  field. split; assumption.
Qed.

Lemma lambda_mu_round_trip_witness :
  exists lambda mu',
    calculate_lambda (Fin (5 # 6)) (Fin 20) 6 = Ok (Fin lambda) /\
    calculate_mu (Fin lambda) (Fin (5 # 6)) 6 = Ok (Fin mu') /\
    mu' == 20.
Proof.
  apply (lambda_mu_round_trip (5 # 6) 20 6); [lra | lia].
Defined.

(** ** The queue length as a function of the load *)

Lemma lq_erlang_eq (rho rho' : Q) (k : nat) :
  rho == rho' -> lq_erlang rho k == lq_erlang rho' k.
Proof.
  intros E. unfold lq_erlang, erlang_Pc, erlang_T. cbv zeta.
  rewrite (erlang_S_eq (inject_Z (Z.of_nat k) * rho)
             (inject_Z (Z.of_nat k) * rho') k) by (rewrite E; reflexivity).
  rewrite E. reflexivity.
Qed.

Lemma erlang_T_pos (a rho : Q) (c : nat) :
  0 < a -> rho < 1 -> 0 < erlang_T a rho c.
Proof.
  intros Ha Hr. unfold erlang_T.
  assert (0 < inject_Z (Z.of_nat (fact c)) * (1 - rho)) as Hd.
  { apply Qmult_lt_0_compat; [apply fact_Q_pos | lra]. }
  apply Qlt_shift_div_l; [exact Hd |].
  rewrite Qmult_0_l. apply Qpower_0_lt. exact Ha.
Qed.

(** [Pc] is a probability below one, and positive under a positive load. *)
Lemma erlang_Pc_bounds (rho : Q) (k : nat) :
  0 <= rho -> rho < 1 -> (1 <= k)%nat ->
  erlang_Pc rho k < 1 /\ (0 < rho -> 0 < erlang_Pc rho k).
Proof.
  intros H0 H1 Hk. unfold erlang_Pc. cbv zeta.
  assert (0 <= inject_Z (Z.of_nat k) * rho) as Ha
    by (apply Qmult_le_0_compat; [apply inject_nat_nonneg | exact H0]).
  pose proof (erlang_S_ge_1 _ k Ha Hk) as HS.
  pose proof (erlang_T_nonneg _ rho k Ha H1) as HT.
  set (S := erlang_S _ k) in *. set (T := erlang_T _ rho k) in *.
  split.
  - apply Qlt_shift_div_r; lra.
  - intros Hp. apply Qlt_shift_div_l; [lra |]. rewrite Qmult_0_l.
    apply erlang_T_pos; [| exact H1].
    pose proof (inject_nat_pos k Hk). apply Qmult_lt_0_compat; lra.
Qed.

Lemma lq_erlang_bounds (rho : Q) (k : nat) :
  0 < rho -> rho < 1 -> (1 <= k)%nat ->
  0 < lq_erlang rho k < rho / (1 - rho).
Proof.
  intros H0 H1 Hk.
  destruct (erlang_Pc_bounds rho k (Qlt_le_weak _ _ H0) H1 Hk) as [U L].
  specialize (L H0). unfold lq_erlang. set (P := erlang_Pc rho k) in *.
  assert (0 < P * rho) by (apply Qmult_lt_0_compat; assumption).
  assert (P * rho < rho).
  { rewrite <- (Qmult_1_l rho) at 2. apply Qmult_lt_compat_r; assumption. }
  split.
  - apply Qlt_shift_div_l; lra.
  - apply Qlt_shift_div_r; [lra |].
    assert (rho / (1 - rho) * (1 - rho) == rho) as -> by (field; lra).
    assumption.
Qed.

Lemma lq_erlang_zero (rho : Q) (k : nat) :
  rho == 0 -> lq_erlang rho k == 0.
Proof.
  intros E. rewrite (lq_erlang_eq rho 0 k E). unfold lq_erlang, Qdiv. ring.
Qed.


Lemma lq_erlang_mm2 (rho : Q) :
  0 <= rho -> rho < 1 -> lq_erlang rho 2 == 2 * rho ^ 3 / (1 - rho ^ 2).
Proof.
  intros H0 H1. unfold lq_erlang, erlang_Pc, erlang_T, erlang_S, erlang_term.
  cbn [sum_upto]. cbv zeta.
  change (Z.of_nat 2) with 2%Z. change (Z.of_nat 1) with 1%Z.
  change (Z.of_nat 0) with 0%Z.
  change (Z.of_nat (fact 2)) with 2%Z. change (Z.of_nat (fact 1)) with 1%Z.
  change (Z.of_nat (fact 0)) with 1%Z.
  change (inject_Z 1) with 1. change (inject_Z 2) with 2.
  rewrite Qpower_1_r, Qpower_0_r.
  assert (rho ^ 2 == rho * rho) as -> by (simpl; ring).
  assert (rho ^ 3 == rho * rho * rho) as -> by (simpl; ring).
  assert ((2 * rho) ^ 2 == 4 * (rho * rho)) as -> by (simpl; ring).
  assert (0 <= rho * rho) by (apply Qmult_le_0_compat; assumption).
  assert (rho * rho < 1).
  { destruct (Qeq_dec rho 0) as [E | N]; [rewrite E; lra |].
    assert (rho * rho < 1 * rho) by (apply Qmult_lt_compat_r; lra). lra. }
  field. repeat split; lra.
Qed.

(** On a stable load [(c * rho)^c] stays below [c^c], which fits in a
    [float] for one and for two servers. *)
Lemma stable_load_power_fits (rho : Q) (k : nat) :
  0 <= rho -> rho < 1 ->
  overflows (inject_Z (Z.of_nat k) ^ Z.of_nat k) = false ->
  overflows ((inject_Z (Z.of_nat k) * rho) ^ Z.of_nat k) = false.
Proof.
  intros H0 H1 Ho.
  pose proof (inject_nat_nonneg k) as HK.
  apply (pow_fits_base _ (inject_Z (Z.of_nat k)) k); [| | exact Ho].
  - apply Qmult_le_0_compat; assumption.
  - nra.
Qed.

(** X5: with one server, [calculate_lq] is the M/M/1 queue length
    [rho^2 / (1 - rho)], for every load [0 <= rho < 1]. *)
Theorem calculate_lq_single_server (rho : Q) :
  0 <= rho -> rho < 1 ->
  exists lq, calculate_lq (Fin rho) 1 = Ok (Fin lq) /\ lq == rho ^ 2 / (1 - rho).
Proof.
  intros H0 H1. exists (lq_erlang rho 1). split.
  - apply (calculate_lq_stable rho 1);
      [assumption | assumption | lia | lia |].
    apply stable_load_power_fits; [assumption | assumption | reflexivity].
  - apply lq_erlang_mm1; assumption.
Qed.

Lemma calculate_lq_single_server_witness :
  exists lq, calculate_lq (Fin (1 # 2)) 1 = Ok (Fin lq) /\
             lq == (1 # 2) ^ 2 / (1 - (1 # 2)).
Proof.
  apply (calculate_lq_single_server (1 # 2)); lra.
Defined.

(** X6: with two servers, [calculate_lq] is the M/M/2 queue length
    [2 * rho^3 / (1 - rho^2)], for every load [0 <= rho < 1]. *)
Theorem calculate_lq_two_servers (rho : Q) :
  0 <= rho -> rho < 1 ->
  exists lq,
    calculate_lq (Fin rho) 2 = Ok (Fin lq) /\ lq == 2 * rho ^ 3 / (1 - rho ^ 2).
Proof.
  intros H0 H1. exists (lq_erlang rho 2). split.
  - apply (calculate_lq_stable rho 2);
      [assumption | assumption | lia | lia |].
    apply stable_load_power_fits; [assumption | assumption | reflexivity].
  - apply lq_erlang_mm2; assumption.
Qed.

Lemma calculate_lq_two_servers_witness :
  exists lq, calculate_lq (Fin (1 # 2)) 2 = Ok (Fin lq) /\
             lq == 2 * (1 # 2) ^ 3 / (1 - (1 # 2) ^ 2).
Proof.
  apply (calculate_lq_two_servers (1 # 2)); lra.
Defined.

(** X7: for up to [170] servers and a stable load whose power
    [(c * rho)^c] fits in a [float], the queue length returned by
    [calculate_lq] lies between [0] and [rho / (1 - rho)]: the waiting
    probability is at most one. *)
Theorem calculate_lq_upper_bound (rho : Q) (c : Z) :
  0 <= rho -> rho < 1 -> (1 <= c <= 170)%Z ->
  overflows ((inject_Z c * rho) ^ c) = false ->
  exists lq,
    calculate_lq (Fin rho) c = Ok (Fin lq) /\
    0 <= lq /\ lq <= rho / (1 - rho).
Proof.
  intros H0 H1 Hc Ho. servers_as_nat c k Hk.
  exists (lq_erlang rho k).
  split; [apply calculate_lq_stable; (assumption || lia) |].
  split; [apply lq_erlang_nonneg; assumption |].
  destruct (Qeq_dec rho 0) as [E | N].
  - rewrite (lq_erlang_zero rho k E), E. apply Qle_shift_div_l; lra.
  - assert (0 < rho) as Hp by lra.
    destruct (lq_erlang_bounds rho k Hp H1 Hk) as [L U]. lra.
Qed.

Lemma calculate_lq_upper_bound_witness :
  exists lq,
    calculate_lq (Fin (5 # 6)) 6 = Ok (Fin lq) /\
    0 <= lq /\ lq <= (5 # 6) / (1 - (5 # 6)).
Proof.
  apply (calculate_lq_upper_bound (5 # 6) 6); [lra | lra | lia | reflexivity].
Defined.

(** ** The sweep functions *)

Lemma Qeq_bool_pos (x : Q) : 0 < x -> Qeq_bool x 0 = false.
Proof.
  intros H. destruct (Qeq_bool x 0) eqn:E; [| reflexivity].
  apply Qeq_bool_iff in E. lra.
Qed.

(** Under arrivals, [calculate_average_queue_time] returns [Lq / lambda]. *)
Lemma calculate_average_queue_time_busy (lambda mu : Q) (k : nat) :
  0 < lambda -> 0 < mu -> (1 <= k)%nat -> lambda < inject_Z (Z.of_nat k) * mu ->
  (k <= 170)%nat -> overflows ((lambda / mu) ^ Z.of_nat k) = false ->
  exists lq,
    lq == lq_erlang (lambda / (inject_Z (Z.of_nat k) * mu)) k /\
    calculate_average_queue_time (Fin lambda) (Fin mu) (Z.of_nat k)
    = Ok (Fin (lq / lambda)).
Proof.
  intros Hl Hm Hk Hs Hk' Ho.
  destruct (calculate_average_queue_time_stable lambda mu k
              (Qlt_le_weak _ _ Hl) Hm Hk Hs Hk' Ho) as (lq & E & H).
  exists lq. split; [exact E |].
  rewrite H, Qeq_bool_pos by exact Hl. reflexivity.
Qed.

(** Under arrivals, [calculate_wq_for_plot] returns [Lq / mu]. *)
Lemma calculate_wq_for_plot_busy (lambda mu : Q) (k : nat) :
  0 < lambda -> 0 < mu -> (1 <= k)%nat -> lambda < inject_Z (Z.of_nat k) * mu ->
  (k <= 170)%nat -> overflows ((lambda / mu) ^ Z.of_nat k) = false ->
  calculate_wq_for_plot (Fin lambda) (Fin mu) (Z.of_nat k)
  = Ok (Fin (lq_erlang (lambda / (inject_Z (Z.of_nat k) * mu)) k / mu)).
Proof.
  intros Hl Hm Hk Hs Hk' Ho.
  rewrite calculate_wq_for_plot_stable by (lra || assumption).
  rewrite Qeq_bool_pos by exact Hl. reflexivity.
Qed.


(** The ratio [lambda / mu] grows with [lambda] and falls with [mu]. *)
Lemma ratio_le (l1 l2 m1 m2 : Q) :
  0 <= l1 -> l1 <= l2 -> 0 < m2 -> m2 <= m1 -> 0 <= l1 / m1 <= l2 / m2.
Proof.
  intros H1 H12 Hm2 Hm21.
  assert (0 < m1) as Hm1 by lra.
  split; [apply Qle_shift_div_l; lra |].
  apply Qle_shift_div_l; [exact Hm2 |].
  assert (l1 / m1 * m2 == l1 * m2 / m1) as -> by (field; lra).
  apply Qle_shift_div_r; [exact Hm1 |]. nra.
Qed.







(** X13: measuring time in another unit rescales the wait: on a stable
    load with up to [170] servers and [(lambda / mu)^c] fitting in a
    [float], multiplying both rates by [s > 0] divides the wait returned
    by each sweep function by [s]. *)
Theorem sweep_wait_rescales (s lambda mu : Q) (c : Z) :
  0 < s -> 0 < lambda -> 0 < mu -> (1 <= c <= 170)%Z ->
  lambda < inject_Z c * mu ->
  overflows ((lambda / mu) ^ c) = false ->
  exists w w' p p',
    calculate_average_queue_time (Fin lambda) (Fin mu) c = Ok (Fin w) /\
    calculate_average_queue_time (Fin (s * lambda)) (Fin (s * mu)) c
    = Ok (Fin w') /\
    calculate_wq_for_plot (Fin lambda) (Fin mu) c = Ok (Fin p) /\
    calculate_wq_for_plot (Fin (s * lambda)) (Fin (s * mu)) c = Ok (Fin p') /\
    w' == w / s /\ p' == p / s.
Proof.
  intros Hs0 Hl Hm Hc Hs Ho. servers_as_nat c k Hk.
  assert (k <= 170)%nat as Hk' by lia.
  pose proof (inject_nat_pos k Hk) as HK.
  assert (overflows ((s * lambda / (s * mu)) ^ Z.of_nat k) = false) as Ho'.
  { rewrite (overflows_eq _ ((lambda / mu) ^ Z.of_nat k)); [exact Ho |].
    assert (s * lambda / (s * mu) == lambda / mu) as -> by (field; split; lra).
    reflexivity. }
  set (K := inject_Z (Z.of_nat k)) in *.
  assert (0 < s * lambda) as Hl' by (apply Qmult_lt_0_compat; assumption).
  assert (0 < s * mu) as Hm' by (apply Qmult_lt_0_compat; assumption).
  assert (s * lambda < K * (s * mu)) as Hs'.
  { assert (K * (s * mu) == s * (K * mu)) as -> by ring.
    apply Qmult_lt_l; assumption. }
  destruct (calculate_average_queue_time_busy lambda mu k Hl Hm Hk Hs Hk' Ho)
    as (lq & E & C).
  destruct (calculate_average_queue_time_busy (s * lambda) (s * mu) k
              Hl' Hm' Hk Hs' Hk' Ho')
    as (lq' & E' & C').
  fold K in E, E'.
  assert (s * lambda / (K * (s * mu)) == lambda / (K * mu)) as R
    by (field; repeat split; lra).
  pose proof (lq_erlang_eq _ _ k R) as EL.
  exists (lq / lambda), (lq' / (s * lambda)),
    (lq_erlang (lambda / (K * mu)) k / mu),
    (lq_erlang (s * lambda / (K * (s * mu))) k / (s * mu)).
  split; [exact C |]. split; [exact C' |].
  split; [apply calculate_wq_for_plot_busy; assumption |].
  split; [apply calculate_wq_for_plot_busy; assumption |].
  split.
  - rewrite E', EL, E. field. split; lra.
  - rewrite EL. field. split; lra.
Qed.

Lemma sweep_wait_rescales_witness :
  exists w w' p p',
    calculate_average_queue_time (Fin 100) (Fin 20) 6 = Ok (Fin w) /\
    calculate_average_queue_time (Fin (60 * 100)) (Fin (60 * 20)) 6
    = Ok (Fin w') /\
    calculate_wq_for_plot (Fin 100) (Fin 20) 6 = Ok (Fin p) /\
    calculate_wq_for_plot (Fin (60 * 100)) (Fin (60 * 20)) 6 = Ok (Fin p') /\
    w' == w / 60 /\ p' == p / 60.
Proof.
  apply (sweep_wait_rescales 60 100 20 6);
    [lra | lra | lra | lia | vm_compute; reflexivity | vm_compute; reflexivity].
Defined.

(** X14: with one server and [0 < lambda < mu],
    [calculate_average_queue_time] returns the M/M/1 wait
    [lambda / (mu * (mu - lambda))]. *)
Theorem average_queue_time_single_server (lambda mu : Q) :
  0 < lambda -> lambda < mu ->
  exists wq,
    calculate_average_queue_time (Fin lambda) (Fin mu) 1 = Ok (Fin wq) /\
    wq == lambda / (mu * (mu - lambda)).
Proof.
  intros Hl Hs.
  assert (0 < mu) as Hm by lra.
  assert (lambda < inject_Z (Z.of_nat 1) * mu) as Hs'
    by (change (inject_Z (Z.of_nat 1)) with 1; lra).
  assert (overflows ((lambda / mu) ^ Z.of_nat 1) = false) as Ho.
  { destruct (ratio_le lambda mu mu mu) as [A B]; try lra.
    apply (pow_fits_base _ (mu / mu) 1 A B).
    rewrite (overflows_eq _ 1); [reflexivity |].
    change (Z.of_nat 1) with 1%Z. rewrite Qpower_1_r. field. lra. }
  assert (1 <= 170)%nat as H170 by lia.
  destruct (calculate_average_queue_time_busy lambda mu 1 Hl Hm (le_n 1) Hs' H170 Ho)
    as (lq & E & C).
  exists (lq / lambda). split; [exact C |].
  destruct (rho_bounds lambda mu 1 (Qlt_le_weak _ _ Hl) Hm (le_n 1) Hs') as [R0 R1].
  rewrite E, (lq_erlang_mm1 _ R0 R1).
  change (inject_Z (Z.of_nat 1)) with 1.
  assert ((lambda / (1 * mu)) ^ 2 == lambda / (1 * mu) * (lambda / (1 * mu)))
    as -> by (simpl; ring).
  field. repeat split; lra.
Qed.

Lemma average_queue_time_single_server_witness :
  exists wq,
    calculate_average_queue_time (Fin 1) (Fin 2) 1 = Ok (Fin wq) /\
    wq == 1 / (2 * (2 - 1)).
Proof.
  apply (average_queue_time_single_server 1 2); lra.
Defined.


(** ** Inputs outside the intended domain *)

Lemma inject_Z_neg (c : Z) : (c < 0)%Z -> inject_Z c < 0.
Proof.
  intros H. replace 0 with (inject_Z 0) by reflexivity.
  rewrite <- Zlt_Qlt. exact H.
Qed.

(** X15: a negative server count is never rejected with an error: for
    every finite [lambda] and [mu], both sweep functions return [nan]
    (through the first guard, or through the test [rho >= 1]). *)
Theorem sweep_negative_servers (lambda mu : Q) (c : Z) :
  (c < 0)%Z ->
  calculate_average_queue_time (Fin lambda) (Fin mu) c = Ok NaN /\
  calculate_wq_for_plot (Fin lambda) (Fin mu) c = Ok NaN.
Proof.
  intros Hc. pose proof (inject_Z_neg c Hc) as HC.
  destruct (Qlt_le_dec 0 mu) as [Hm | Hm];
    [| apply sweep_unstable; right; exact Hm].
  destruct (Qlt_le_dec lambda (inject_Z c * mu)) as [Hs | Hs];
    [| apply sweep_unstable; left; exact Hs].
  assert (inject_Z c * mu < 0) as Hcap.
  { assert (0 < - inject_Z c * mu) by (apply Qmult_lt_0_compat; lra).
    assert (- inject_Z c * mu == - (inject_Z c * mu)) as E by ring.
    lra. }
  assert (fge (Fin (lambda / (inject_Z c * mu))) (Fin 1) = true) as G.
  { apply fge_fin.
    assert (lambda / (inject_Z c * mu) == - lambda / - (inject_Z c * mu)) as ->
      by (field; lra).
    apply Qle_shift_div_l; lra. }
  unfold calculate_average_queue_time, calculate_wq_for_plot.
  rewrite guard_stable by assumption.
  rewrite calculate_rho_fin by lra. cbn [bind]. rewrite G.
  split; reflexivity.
Qed.

Lemma sweep_negative_servers_witness :
  calculate_average_queue_time (Fin (-50)) (Fin 20) (-2) = Ok NaN /\
  calculate_wq_for_plot (Fin (-50)) (Fin 20) (-2) = Ok NaN.
Proof.
  apply (sweep_negative_servers (-50) 20 (-2)). lia.
Defined.

(** X16: with zero servers both sweep functions return [nan] when
    [lambda >= 0] or [mu <= 0]; but for [lambda < 0] and [mu > 0] the
    guards pass and [calculate_rho], called outside the [try] block,
    raises [ZeroDivisionError]. *)
Theorem sweep_zero_servers (lambda mu : Q) :
  (0 <= lambda \/ mu <= 0 ->
   calculate_average_queue_time (Fin lambda) (Fin mu) 0 = Ok NaN /\
   calculate_wq_for_plot (Fin lambda) (Fin mu) 0 = Ok NaN) /\
  (lambda < 0 -> 0 < mu ->
   calculate_average_queue_time (Fin lambda) (Fin mu) 0
   = Raise ZeroDivisionError /\
   calculate_wq_for_plot (Fin lambda) (Fin mu) 0 = Raise ZeroDivisionError).
Proof.
  assert (inject_Z 0 * mu == 0) as Z0 by ring.
  split.
  - intros H. apply sweep_unstable. destruct H as [H | H]; [left; lra | right; exact H].
  - intros Hl Hm.
    unfold calculate_average_queue_time, calculate_wq_for_plot.
    rewrite guard_stable by lra.
    unfold calculate_rho. cbn [fmul of_int].
    rewrite fdiv_zero by exact Z0. split; reflexivity.
Qed.

Lemma sweep_zero_servers_witness :
  (calculate_average_queue_time (Fin 5) (Fin 20) 0 = Ok NaN /\
   calculate_wq_for_plot (Fin 5) (Fin 20) 0 = Ok NaN) /\
  (calculate_average_queue_time (Fin (-5)) (Fin 20) 0 = Raise ZeroDivisionError /\
   calculate_wq_for_plot (Fin (-5)) (Fin 20) 0 = Raise ZeroDivisionError).
Proof.
  split.
  - apply (sweep_zero_servers 5 20). left. lra.
  - apply (sweep_zero_servers (-5) 20); lra.
Defined.


(** The powers of a base [-2] met with two servers fit in a [float]. *)
Lemma neg_two_powers_fit (a : Q) (n : nat) :
  a == -2 -> (n <= 2)%nat -> overflows (a ^ Z.of_nat n) = false.
Proof.
  intros E Hn.
  rewrite (overflows_eq _ ((-2) ^ Z.of_nat n)) by (rewrite E; reflexivity).
  destruct n as [| [| [| n]]]; [reflexivity | reflexivity | reflexivity | lia].
Qed.

(** With two servers and the load [rho = -1] the sum [S + T] vanishes. *)
Lemma erlang_den_vanishes (a rho : Q) :
  a == -2 -> rho == -1 -> erlang_S a 2 + erlang_T a rho 2 == 0.
Proof.
  intros Ea Er. rewrite (erlang_S_eq a (-2) 2 Ea). unfold erlang_T.
  rewrite Ea, Er. vm_compute. reflexivity.
Qed.

Lemma calculate_lq_negative_load (rho : Q) :
  rho == -1 -> calculate_lq (Fin rho) 2 = Raise ZeroDivisionError.
Proof.
  intros Er. unfold calculate_lq.
  replace (fge (Fin rho) (of_int 1)) with false
    by (symmetry; apply fge_fin_false; rewrite Er; reflexivity).
  change 2%Z with (Z.of_nat 2).
  change (fmul (of_int (Z.of_nat 2)) (Fin rho))
    with (Fin (inject_Z (Z.of_nat 2) * rho)).
  assert (inject_Z (Z.of_nat 2) * rho == -2) as Ea
    by (change (inject_Z (Z.of_nat 2)) with 2; rewrite Er; reflexivity).
  rewrite sum_loop
    by (lia || (intros; apply neg_two_powers_fit; [exact Ea | lia])).
  cbn [bind].
  rewrite fpow_fin by (lia || (apply neg_two_powers_fit; [exact Ea | lia])).
  cbn [bind].
  rewrite factorial_of_nat. cbn [bind].
  rewrite float_of_fact_fits by lia. cbn [bind].
  change (fmul (Fin (inject_Z (Z.of_nat (fact 2)))) (fsub (of_int 1) (Fin rho)))
    with (Fin (inject_Z (Z.of_nat (fact 2)) * (1 - rho))).
  rewrite fdiv_fin.
  2:{ change (inject_Z (Z.of_nat (fact 2))) with 2. lra. }
  cbn [bind fadd].
  rewrite fdiv_zero; [reflexivity |].
  apply (erlang_den_vanishes _ rho); [exact Ea | exact Er].
Qed.

(** X17: a negative arrival rate passes both guards, and the sweep
    functions can then fail: for every [mu > 0], with two servers and
    [lambda = -2 * mu] (load [rho = -1]) the sum [S + T] is zero and both
    functions raise [ZeroDivisionError], which their handler lets through. *)
Theorem sweep_negative_arrivals_raise (mu : Q) :
  0 < mu ->
  calculate_average_queue_time (Fin (-2 * mu)) (Fin mu) 2
  = Raise ZeroDivisionError /\
  calculate_wq_for_plot (Fin (-2 * mu)) (Fin mu) 2 = Raise ZeroDivisionError.
Proof.
  intros Hm.
  assert (-2 * mu / (inject_Z 2 * mu) == -1) as Er
    by (change (inject_Z 2) with 2; field; lra).
  assert (-2 * mu / mu == -2) as Ea by (field; lra).
  assert (fge (Fin (-2 * mu / (inject_Z 2 * mu))) (Fin 1) = false) as G
    by (apply fge_fin_false; rewrite Er; lra).
  unfold calculate_average_queue_time, calculate_wq_for_plot.
  rewrite guard_stable by (change (inject_Z 2) with 2; lra).
  rewrite calculate_rho_fin by (change (inject_Z 2) with 2; lra).
  cbn [bind]. rewrite G. split.
  - unfold queue_time_p0.
    rewrite fdiv_fin by lra. cbn [bind].
    change 2%Z with (Z.of_nat 2).
    rewrite sum_loop
      by (lia || (intros; apply neg_two_powers_fit; [exact Ea | lia])).
    cbn [bind].
    rewrite fpow_fin by (lia || (apply neg_two_powers_fit; [exact Ea | lia])).
    cbn [bind].
    rewrite factorial_of_nat. cbn [bind].
    rewrite float_of_fact_fits by lia. cbn [bind].
    rewrite fdiv_fin by apply fact_Q_neq. cbn [bind].
    change (fsub (of_int 1) (Fin (-2 * mu / (inject_Z (Z.of_nat 2) * mu))))
      with (Fin (1 - -2 * mu / (inject_Z (Z.of_nat 2) * mu))).
    change (of_int 1) with (Fin 1).
    change (inject_Z (Z.of_nat 2)) with (inject_Z 2).
    rewrite fdiv_fin by lra. cbn [bind fmul fadd].
    rewrite fdiv_zero; [reflexivity |].
    rewrite final_term_T by lra.
    apply erlang_den_vanishes; assumption.
  - rewrite calculate_lq_negative_load by exact Er. reflexivity.
Qed.

Lemma sweep_negative_arrivals_raise_witness :
  calculate_average_queue_time (Fin (-2 * 20)) (Fin 20) 2
  = Raise ZeroDivisionError /\
  calculate_wq_for_plot (Fin (-2 * 20)) (Fin 20) 2 = Raise ZeroDivisionError.
Proof.
  apply (sweep_negative_arrivals_raise 20). lra.
Defined.

(** ** How the functions of [calc.py] compose *)

(** X18: Little's law for the whole system.  On a stable load with
    arrivals, up to [170] servers and [(lambda / mu)^c] fitting in a
    [float], the number in system from [calculate_l] equals [lambda]
    times the sojourn time that [calculate_w] builds on the wait of
    [calculate_average_queue_time]: [L = lambda * W]. *)
Theorem system_little_law (lambda mu : Q) (c : Z) :
  0 < lambda -> 0 < mu -> (1 <= c <= 170)%Z -> lambda < inject_Z c * mu ->
  overflows ((lambda / mu) ^ c) = false ->
  exists rho lq wq l w,
    calculate_rho (Fin lambda) (Fin mu) c = Ok (Fin rho) /\
    calculate_lq (Fin rho) c = Ok (Fin lq) /\
    calculate_average_queue_time (Fin lambda) (Fin mu) c = Ok (Fin wq) /\
    calculate_l (Fin lq) (Fin rho) c = Ok (Fin l) /\
    calculate_w (Fin wq) (Fin mu) = Ok (Fin w) /\
    l == lambda * w.
Proof.
  intros Hl Hm Hc Hs Ho. servers_as_nat c k Hk.
  assert (k <= 170)%nat as Hk' by lia.
  pose proof (inject_nat_pos k Hk) as HK.
  pose proof (capacity_pos mu k Hm Hk) as Hcap.
  pose proof (load_power_overflows lambda mu k Hm Hk) as HO.
  destruct (calculate_average_queue_time_busy lambda mu k Hl Hm Hk Hs Hk' Ho)
    as (lq & E & C).
  destruct (rho_bounds lambda mu k (Qlt_le_weak _ _ Hl) Hm Hk Hs) as [R0 R1].
  set (K := inject_Z (Z.of_nat k)) in *.
  set (rho := lambda / (K * mu)) in *.
  exists rho, (lq_erlang rho k), (lq / lambda),
    (lq_erlang rho k + K * rho), (lq / lambda + 1 / mu).
  split; [apply calculate_rho_fin; fold K; lra |].
  split; [apply calculate_lq_stable; (assumption || exact (eq_trans HO Ho)) |].
  split; [exact C |].
  split; [reflexivity |].
  split.
  { unfold calculate_w. change (of_int 1) with (Fin 1).
    rewrite fdiv_fin by lra. reflexivity. }
  rewrite <- E. unfold rho. field. repeat split; lra.
Qed.

Lemma system_little_law_witness :
  exists rho lq wq l w,
    calculate_rho (Fin 100) (Fin 20) 6 = Ok (Fin rho) /\
    calculate_lq (Fin rho) 6 = Ok (Fin lq) /\
    calculate_average_queue_time (Fin 100) (Fin 20) 6 = Ok (Fin wq) /\
    calculate_l (Fin lq) (Fin rho) 6 = Ok (Fin l) /\
    calculate_w (Fin wq) (Fin 20) = Ok (Fin w) /\
    l == 100 * w.
Proof.
  apply (system_little_law 100 20 6);
    [lra | lra | lia | vm_compute; reflexivity | vm_compute; reflexivity].
Defined.

(** X19: on an unstable load the chain of [calc.py] carries the infinite
    sentinel through: for [rho >= 1], [mu > 0] and any [c],
    [calculate_lq] returns [inf] and then [calculate_wq], [calculate_l]
    and [calculate_w] all return [inf], without raising. *)
Theorem unstable_metrics_infinite (rho mu : Q) (c : Z) :
  1 <= rho -> 0 < mu ->
  calculate_lq (Fin rho) c = Ok PInf /\
  calculate_wq PInf (Fin mu) = Ok PInf /\
  calculate_l PInf (Fin rho) c = Ok PInf /\
  calculate_w PInf (Fin mu) = Ok PInf.
Proof.
  intros Hr Hm.
  assert (Qeq_bool mu 0 = false) as Em by (apply Qeq_bool_pos; exact Hm).
  assert ((/ mu ?= 0) = Gt) as Ei
    by (apply Qgt_alt, Qinv_lt_0_compat; exact Hm).
  repeat split.
  - unfold calculate_lq.
    replace (fge (Fin rho) (of_int 1)) with true
      by (symmetry; apply fge_fin; exact Hr).
    reflexivity.
  - unfold calculate_wq, fdiv. rewrite Em. cbn [fmul fsign]. rewrite Ei.
    reflexivity.
  - unfold calculate_w, fdiv, of_int. rewrite Em. reflexivity.
Qed.

Lemma unstable_metrics_infinite_witness :
  calculate_lq (Fin (13 # 12)) 6 = Ok PInf /\
  calculate_wq PInf (Fin 20) = Ok PInf /\
  calculate_l PInf (Fin (13 # 12)) 6 = Ok PInf /\
  calculate_w PInf (Fin 20) = Ok PInf.
Proof.
  apply (unstable_metrics_infinite (13 # 12) 20 6); lra.
Defined.


(** ** Non-finite rates *)

Lemma fdiv_nan_l (b : Q) : ~ b == 0 -> fdiv NaN (Fin b) = Ok NaN.
Proof.
  intros H. unfold fdiv. destruct (Qeq_bool b 0) eqn:E; [| reflexivity].
  apply Qeq_bool_iff in E. contradiction.
Qed.

Lemma fadd_nan_r (x : pyfloat) : fadd x NaN = NaN.
Proof. destruct x; reflexivity. Qed.

Lemma fpow_nan (n : Z) : (1 <= n)%Z -> fpow NaN n = Ok NaN.
Proof.
  intros H. unfold fpow.
  replace (n =? 0)%Z with false by (symmetry; apply Z.eqb_neq; lia).
  reflexivity.
Qed.

(** The accumulation loop on a [nan] base: no error up to the term
    [171!], an [OverflowError] from its conversion after that. *)
Lemma sum_loop_nan (k : nat) :
  let loop :=
    for_in (range (Z.of_nat k))
      (fun acc n =>
         p <- fpow NaN n ;;
         f <- factorial n ;;
         ff <- float_of_int f ;;
         t <- fdiv p ff ;;
         Ok (fadd acc t))
      (Fin 0) in
  ((k <= 171)%nat -> exists v, loop = Ok v) /\
  ((172 <= k)%nat -> loop = Raise OverflowError).
Proof.
  cbv zeta. induction k as [| k [IH1 IH2]].
  - split; [intros _; exists (Fin 0); reflexivity | lia].
  - rewrite range_succ, for_in_app. split.
    + intros Hk. destruct IH1 as [v ->]; [lia |]. cbn [bind for_in].
      destruct k as [| k]; [eexists; reflexivity |].
      rewrite fpow_nan by lia. cbn [bind].
      rewrite factorial_of_nat. cbn [bind].
      rewrite float_of_fact_fits by lia. cbn [bind].
      rewrite fdiv_nan_l by apply fact_Q_neq. cbn [bind].
      eexists. reflexivity.
    + intros Hk. destruct (le_lt_dec 172 k) as [L | L].
      * rewrite IH2 by exact L. reflexivity.
      * destruct IH1 as [v ->]; [lia |]. cbn [bind for_in].
        rewrite fpow_nan by lia. cbn [bind].
        rewrite factorial_of_nat. cbn [bind].
        rewrite float_of_fact_overflows by lia. reflexivity.
Qed.

Lemma queue_time_p0_nan (a m : pyfloat) (k : nat) :
  (1 <= k)%nat -> (k <= 170)%nat -> fdiv a m = Ok NaN ->
  queue_time_p0 a m NaN (Z.of_nat k) = Ok (NaN, NaN).
Proof.
  intros Hk Hk' Hr. unfold queue_time_p0. rewrite Hr. cbn [bind].
  destruct (sum_loop_nan k) as [[v ->] _]; [lia |]. cbn [bind].
  rewrite fpow_nan by lia. cbn [bind].
  rewrite factorial_of_nat. cbn [bind].
  rewrite float_of_fact_fits by exact Hk'. cbn [bind].
  rewrite fdiv_nan_l by apply fact_Q_neq. cbn [bind].
  cbn [fsub fneg fadd of_int fdiv bind fmul fsign].
  rewrite fadd_nan_r. reflexivity.
Qed.

Lemma queue_time_p0_nan_raises (a m rho : pyfloat) (k : nat) :
  (171 <= k)%nat -> fdiv a m = Ok NaN ->
  queue_time_p0 a m rho (Z.of_nat k) = Raise OverflowError.
Proof.
  intros Hk Hr. unfold queue_time_p0. rewrite Hr. cbn [bind].
  destruct (sum_loop_nan k) as [H1 H2].
  destruct (le_lt_dec 172 k) as [L | L]; [rewrite H2 by exact L; reflexivity |].
  destruct H1 as [v ->]; [lia |]. cbn [bind].
  rewrite fpow_nan by lia. cbn [bind].
  rewrite factorial_of_nat. cbn [bind].
  rewrite float_of_fact_overflows by exact Hk. reflexivity.
Qed.

Lemma queue_time_lq_nan (k : nat) :
  (1 <= k)%nat -> (k <= 170)%nat ->
  queue_time_lq NaN NaN NaN (Z.of_nat k) = Ok NaN.
Proof.
  intros Hk Hk'. unfold queue_time_lq.
  rewrite fpow_nan by lia. cbn [bind].
  rewrite factorial_of_nat. cbn [bind].
  cbn [fsub fneg fadd of_int]. rewrite fpow_nan by lia. cbn [bind].
  rewrite float_of_fact_fits by exact Hk'. reflexivity.
Qed.

Lemma calculate_lq_nan (k : nat) :
  (1 <= k)%nat -> (k <= 170)%nat -> calculate_lq NaN (Z.of_nat k) = Ok NaN.
Proof.
  intros Hk Hk'. unfold calculate_lq.
  cbn [fge fcmp of_int fmul fsign].
  destruct (sum_loop_nan k) as [[v ->] _]; [lia |]. cbn [bind].
  rewrite fpow_nan by lia. cbn [bind].
  rewrite factorial_of_nat. cbn [bind].
  rewrite float_of_fact_fits by exact Hk'.
  cbn [fsub fneg fadd fmul fsign of_int fdiv bind].
  rewrite fadd_nan_r. reflexivity.
Qed.

Lemma calculate_lq_nan_raises (k : nat) :
  (171 <= k)%nat -> calculate_lq NaN (Z.of_nat k) = Raise OverflowError.
Proof.
  intros Hk. unfold calculate_lq.
  cbn [fge fcmp of_int fmul fsign].
  destruct (sum_loop_nan k) as [H1 H2].
  destruct (le_lt_dec 172 k) as [L | L]; [rewrite H2 by exact L; reflexivity |].
  destruct H1 as [v ->]; [lia |]. cbn [bind].
  rewrite fpow_nan by lia. cbn [bind].
  rewrite factorial_of_nat. cbn [bind].
  rewrite float_of_fact_overflows by exact Hk. reflexivity.
Qed.

(** X20: a [nan] arrival rate is not an error: for [mu > 0] and
    [c >= 1] it fails every guard test and both sweep functions return
    [nan].  Up to [170] servers the arithmetic of the [try] block runs
    through on [nan]; from [171] servers on, the conversion of the
    factorial raises [OverflowError] inside the [try] block and the
    handler returns the sentinel. *)
Theorem sweep_nan_arrival (mu : Q) (c : Z) :
  0 < mu -> (1 <= c)%Z ->
  calculate_average_queue_time NaN (Fin mu) c = Ok NaN /\
  calculate_wq_for_plot NaN (Fin mu) c = Ok NaN.
Proof.
  intros Hm Hc. servers_as_nat c k Hk.
  pose proof (capacity_pos mu k Hm Hk) as Hcap.
  assert (fle (Fin mu) (of_int 0) = false) as G
    by (apply fle_fin_false; exact Hm).
  unfold calculate_average_queue_time, calculate_wq_for_plot, calculate_rho.
  cbn [fmul of_int fge fcmp orb]. fold (of_int 0). rewrite G.
  rewrite fdiv_nan_l by lra. cbn [bind fge fcmp].
  destruct (le_lt_dec k 170) as [Hk' | Hk'].
  - split.
    + rewrite queue_time_p0_nan; [| exact Hk | exact Hk' | apply fdiv_nan_l; lra].
      cbn [try_nan]. rewrite queue_time_lq_nan by assumption. reflexivity.
    + rewrite calculate_lq_nan by assumption. cbn [bind]. unfold calculate_wq.
      rewrite fdiv_nan_l by lra. reflexivity.
  - split.
    + rewrite queue_time_p0_nan_raises; [| exact Hk' | apply fdiv_nan_l; lra].
      reflexivity.
    + rewrite calculate_lq_nan_raises by exact Hk'. reflexivity.
Qed.

Lemma sweep_nan_arrival_witness :
  calculate_average_queue_time NaN (Fin 20) 6 = Ok NaN /\
  calculate_wq_for_plot NaN (Fin 20) 6 = Ok NaN.
Proof.
  apply (sweep_nan_arrival 20 6); [lra | lia].
Defined.

(** X21: a [nan] service rate is masked when there are no arrivals and
    at most [170] servers: for a finite [lambda] and [c >= 1], both sweep
    functions return [0.0] if [lambda = 0] and [c <= 170], and [nan]
    otherwise; from [171] servers on the [OverflowError] of the factorial
    is caught before the test [arrival_rate == 0]. *)
Theorem sweep_nan_service (lambda : Q) (c : Z) :
  (1 <= c)%Z ->
  calculate_average_queue_time (Fin lambda) NaN c
  = (if Qeq_bool lambda 0 && (c <=? 170)%Z then Ok (Fin 0) else Ok NaN) /\
  calculate_wq_for_plot (Fin lambda) NaN c
  = (if Qeq_bool lambda 0 && (c <=? 170)%Z then Ok (Fin 0) else Ok NaN).
Proof.
  intros Hc. servers_as_nat c k Hk.
  unfold calculate_average_queue_time, calculate_wq_for_plot, calculate_rho.
  cbn [fmul of_int fsign fge fle fcmp orb fdiv bind].
  destruct (le_lt_dec k 170) as [Hk' | Hk'].
  - replace (Z.of_nat k <=? 170)%Z with true by (symmetry; apply Z.leb_le; lia).
    rewrite andb_true_r. split.
    + rewrite queue_time_p0_nan; [| exact Hk | exact Hk' | reflexivity].
      cbn [try_nan]. rewrite queue_time_lq_nan by assumption. cbn [bind].
      rewrite feq_zero. destruct (Qeq_bool lambda 0); reflexivity.
    + rewrite calculate_lq_nan by assumption.
      cbn [bind calculate_wq fdiv try_nan].
      rewrite feq_zero. reflexivity.
  - replace (Z.of_nat k <=? 170)%Z with false by (symmetry; apply Z.leb_gt; lia).
    rewrite andb_false_r. split.
    + rewrite queue_time_p0_nan_raises; [| exact Hk' | reflexivity].
      reflexivity.
    + rewrite calculate_lq_nan_raises by exact Hk'. reflexivity.
Qed.

Lemma sweep_nan_service_witness :
  (calculate_average_queue_time (Fin 0) NaN 6 = Ok (Fin 0) /\
   calculate_wq_for_plot (Fin 0) NaN 6 = Ok (Fin 0)) /\
  (calculate_average_queue_time (Fin 100) NaN 6 = Ok NaN /\
   calculate_wq_for_plot (Fin 100) NaN 6 = Ok NaN).
Proof.
  split.
  - apply (sweep_nan_service 0 6). lia.
  - apply (sweep_nan_service 100 6). lia.
Defined.

(** The powers of a zero ratio fit in a [float]. *)
Lemma zero_power_fits (n : nat) : overflows (0 ^ Z.of_nat n) = false.
Proof.
  rewrite (overflows_eq _ ((0 / 1) ^ Z.of_nat n)) by reflexivity.
  apply zero_load_power_fits. reflexivity.
Qed.

(** X22: an infinite service rate means no waiting, up to [170]
    servers: for every finite [lambda] the guards pass, the load is
    [0.0] and both sweep functions return a zero wait; from [171] servers
    on they return [nan], as the conversion of the factorial raises
    [OverflowError] inside the [try] block. *)
Theorem sweep_infinite_service (lambda : Q) (c : Z) :
  (1 <= c)%Z ->
  ((c <= 170)%Z ->
   (exists wq,
      calculate_average_queue_time (Fin lambda) PInf c = Ok (Fin wq) /\
      wq == 0) /\
   calculate_wq_for_plot (Fin lambda) PInf c = Ok (Fin 0)) /\
  ((171 <= c)%Z ->
   calculate_average_queue_time (Fin lambda) PInf c = Ok NaN /\
   calculate_wq_for_plot (Fin lambda) PInf c = Ok NaN).
Proof.
  intros Hc. servers_as_nat c k Hk.
  assert (fmul (of_int (Z.of_nat k)) PInf = PInf) as EK.
  { change (fmul (of_int (Z.of_nat k)) PInf)
      with (inf_of_sign (sign_mul (inject_Z (Z.of_nat k) ?= 0) Gt)).
    replace (inject_Z (Z.of_nat k) ?= 0) with Gt; [reflexivity |].
    symmetry. apply Qgt_alt. pose proof (inject_nat_pos k Hk). lra. }
  unfold calculate_average_queue_time, calculate_wq_for_plot, calculate_rho.
  rewrite EK.
  change (fge (Fin lambda) PInf) with false.
  change (fle PInf (of_int 0)) with false. cbn [orb].
  change (fdiv (Fin lambda) PInf) with (Ok (Fin 0)). cbn [bind].
  change (fge (Fin 0) (Fin 1)) with false. cbv iota.
  split.
  - intros Hk'. assert (k <= 170)%nat as Hk'' by lia. split.
    + unfold queue_time_p0.
      change (fdiv (Fin lambda) PInf) with (Ok (Fin 0)). cbn [bind].
      rewrite sum_loop by (lia || (intros; apply zero_power_fits)).
      cbn [bind].
      rewrite fpow_fin by (lia || apply zero_power_fits). cbn [bind].
      rewrite factorial_of_nat. cbn [bind].
      rewrite float_of_fact_fits by exact Hk''. cbn [bind].
      rewrite fdiv_fin by apply fact_Q_neq. cbn [bind].
      change (fsub (of_int 1) (Fin 0)) with (Fin (1 - 0)).
      change (of_int 1) with (Fin 1).
      rewrite fdiv_fin by lra. cbn [bind fmul fadd].
      rewrite fdiv_fin.
      2:{ rewrite final_term_T by lra.
          pose proof (erlang_den_pos 0 0 k (Qle_refl 0) (eq_refl : 0 < 1) Hk). lra. }
      cbn [bind try_nan].
      rewrite queue_time_lq_fin
        by (lra || assumption || apply zero_power_fits).
      cbn [bind].
      rewrite feq_zero. destruct (Qeq_bool lambda 0) eqn:E.
      * exists 0. split; reflexivity.
      * rewrite fdiv_fin by (apply Qeq_bool_neq; exact E).
        eexists. split; [reflexivity |]. unfold Qdiv. ring.
    + assert (calculate_lq (Fin 0) (Z.of_nat k) = Ok (Fin (lq_erlang 0 k))) as ->.
      { apply calculate_lq_stable;
          [apply Qle_refl | reflexivity | exact Hk | exact Hk'' |].
        rewrite (overflows_eq _ (0 ^ Z.of_nat k));
          [apply zero_power_fits |].
        assert (inject_Z (Z.of_nat k) * 0 == 0) as -> by ring. reflexivity. }
      cbn [bind calculate_wq fdiv try_nan].
      destruct (feq (Fin lambda) (of_int 0)); reflexivity.
  - intros Hk'. assert (171 <= k)%nat as Hk'' by lia. split.
    + rewrite (queue_time_p0_raises _ _ _ 0 k);
        [reflexivity | reflexivity | left; exact Hk''].
    + rewrite calculate_lq_raises; [reflexivity | reflexivity | left; exact Hk''].
Qed.

Lemma sweep_infinite_service_witness :
  ((exists wq,
      calculate_average_queue_time (Fin 100) PInf 6 = Ok (Fin wq) /\ wq == 0) /\
   calculate_wq_for_plot (Fin 100) PInf 6 = Ok (Fin 0)) /\
  (calculate_average_queue_time (Fin 100) PInf 171 = Ok NaN /\
   calculate_wq_for_plot (Fin 100) PInf 171 = Ok NaN).
Proof.
  split.
  - apply (sweep_infinite_service 100 6); lia.
  - apply (sweep_infinite_service 100 171); lia.
Defined.

(** ** The mesh loop of [contour.py] *)

(** X23: for [lambda >= 0] and [c >= 1], the value stored for a grid
    point is [nan] on the unstable region, and also on a stable load when
    [c >= 171] or [(lambda / mu)^c] leaves the binary64 range; on the
    other stable loads it is the finite number [3 * Wq + 1 / mu], where
    [Wq] is the wait returned by [calculate_average_queue_time], and it
    is never below the service time [1 / mu].  No grid point raises. *)
Theorem response_time_cell_value (lambda mu : Q) (c : Z) :
  0 <= lambda -> (1 <= c)%Z ->
  (inject_Z c * mu <= lambda \/ mu <= 0 ->
   response_time_cell (Fin lambda) (Fin mu) c = Ok NaN) /\
  (0 < mu -> lambda < inject_Z c * mu ->
   (171 <= c)%Z \/ overflows ((lambda / mu) ^ c) = true ->
   response_time_cell (Fin lambda) (Fin mu) c = Ok NaN) /\
  (0 < mu -> lambda < inject_Z c * mu ->
   (c <= 170)%Z -> overflows ((lambda / mu) ^ c) = false ->
   exists wq w,
     calculate_average_queue_time (Fin lambda) (Fin mu) c = Ok (Fin wq) /\
     response_time_cell (Fin lambda) (Fin mu) c = Ok (Fin w) /\
     w == 3 * wq + 1 / mu /\
     1 / mu <= w).
Proof.
  intros Hl Hc. split; [| split].
  - intros U. unfold response_time_cell.
    destruct (sweep_unstable lambda mu c U) as [-> _]. reflexivity.
  - intros Hm Hs Hr. servers_as_nat c k Hk.
    assert ((171 <= k)%nat \/ overflows ((lambda / mu) ^ Z.of_nat k) = true)
      as Hr' by (destruct Hr; [left; lia | right; assumption]).
    unfold response_time_cell.
    destruct (sweep_overflow_nan lambda mu k Hl Hm Hk Hs Hr') as [-> _].
    reflexivity.
  - intros Hm Hs Hc' Ho. servers_as_nat c k Hk.
    assert (k <= 170)%nat as Hk' by lia.
    destruct (calculate_average_queue_time_stable lambda mu k Hl Hm Hk Hs Hk' Ho)
      as (lq & E & C).
    destruct (rho_bounds lambda mu k Hl Hm Hk Hs) as [R0 R1].
    pose proof (lq_erlang_nonneg _ k R0 R1 Hk) as L.
    assert (exists wq,
              calculate_average_queue_time (Fin lambda) (Fin mu) (Z.of_nat k)
              = Ok (Fin wq) /\ 0 <= wq) as (wq & Cw & W0).
    { rewrite C. destruct (Qeq_bool lambda 0) eqn:E0.
      - exists 0. split; [reflexivity | apply Qle_refl].
      - exists (lq / lambda). split; [reflexivity |].
        assert (~ lambda == 0) by (apply Qeq_bool_neq; exact E0).
        apply Qle_shift_div_l; lra. }
    exists wq, (inject_Z 3 * wq + 1 / mu).
    split; [exact Cw |].
    split.
    { unfold response_time_cell. rewrite Cw. cbn [bind].
      change (of_int 1) with (Fin 1). rewrite fdiv_fin by lra. reflexivity. }
    change (inject_Z 3) with 3. split; [reflexivity | lra].
Qed.

Lemma response_time_cell_value_witness :
  response_time_cell (Fin 130) (Fin 20) 6 = Ok NaN /\
  response_time_cell (Fin 100) (Fin 20) 171 = Ok NaN /\
  exists wq w,
    calculate_average_queue_time (Fin 100) (Fin 20) 6 = Ok (Fin wq) /\
    response_time_cell (Fin 100) (Fin 20) 6 = Ok (Fin w) /\
    w == 3 * wq + 1 / 20 /\
    1 / 20 <= w.
Proof.
  split; [| split].
  - destruct (response_time_cell_value 130 20 6) as (H & _);
      [lra | lia |].
    apply H. left. vm_compute. discriminate.
  - destruct (response_time_cell_value 100 20 171) as (_ & H & _);
      [lra | lia |].
    apply H; [lra | vm_compute; reflexivity | left; lia].
  - destruct (response_time_cell_value 100 20 6) as (_ & _ & H);
      [lra | lia |].
    apply H; [lra | vm_compute; reflexivity | lia | vm_compute; reflexivity].
Defined.

(** ** Beyond the binary64 range *)

(** X24: [calculate_lq] has no result beyond [170] servers: for every
    finite load [rho < 1] and every [c >= 171] it raises [OverflowError],
    from a power [(c * rho)^n] or, at the latest, from the conversion of
    [c!] to [float]. *)
Theorem calculate_lq_overflows_beyond_170 (rho : Q) (c : Z) :
  rho < 1 -> (171 <= c)%Z -> calculate_lq (Fin rho) c = Raise OverflowError.
Proof.
  intros H1 Hc. servers_as_nat c k Hk.
  apply calculate_lq_raises; [exact H1 | left; lia].
Qed.

Lemma calculate_lq_overflows_beyond_170_witness :
  calculate_lq (Fin 0) 200 = Raise OverflowError.
Proof.
  apply (calculate_lq_overflows_beyond_170 0 200); [reflexivity | lia].
Defined.

(** X25: beyond [170] servers both sweep functions are constant: for
    every finite [lambda] and [mu] and every [c >= 171] they return
    [nan], through a guard or through the handler of the [try] block. *)
Theorem sweep_nan_beyond_170 (lambda mu : Q) (c : Z) :
  (171 <= c)%Z ->
  calculate_average_queue_time (Fin lambda) (Fin mu) c = Ok NaN /\
  calculate_wq_for_plot (Fin lambda) (Fin mu) c = Ok NaN.
Proof.
  intros Hc. servers_as_nat c k Hk.
  destruct (Qlt_le_dec 0 mu) as [Hm | Hm];
    [| apply sweep_unstable; right; exact Hm].
  destruct (Qlt_le_dec lambda (inject_Z (Z.of_nat k) * mu)) as [Hs | Hs];
    [| apply sweep_unstable; left; exact Hs].
  pose proof (capacity_pos mu k Hm Hk) as Hcap.
  assert (lambda / (inject_Z (Z.of_nat k) * mu) < 1) as R1
    by (apply Qlt_shift_div_r; [exact Hcap | lra]).
  unfold calculate_average_queue_time, calculate_wq_for_plot.
  rewrite guard_stable by assumption.
  rewrite calculate_rho_fin by lra. cbn [bind].
  replace (fge (Fin (lambda / (inject_Z (Z.of_nat k) * mu))) (Fin 1)) with false
    by (symmetry; apply fge_fin_false; exact R1).
  split.
  - rewrite (queue_time_p0_raises _ _ _ (lambda / mu) k);
      [reflexivity | apply fdiv_fin; lra | left; lia].
  - rewrite calculate_lq_raises; [reflexivity | exact R1 | left; lia].
Qed.

Lemma sweep_nan_beyond_170_witness :
  calculate_average_queue_time (Fin 100) (Fin 20) 171 = Ok NaN /\
  calculate_wq_for_plot (Fin 100) (Fin 20) 171 = Ok NaN.
Proof.
  apply (sweep_nan_beyond_170 100 20 171). lia.
Defined.

(** X26: a stable load is not enough for a finite wait: for
    [lambda >= 0], [mu > 0] and [c >= 1] with [lambda < c * mu], when
    the power [(lambda / mu)^c] leaves the binary64 range the
    [OverflowError] is caught and both sweep functions return [nan]. *)
Theorem sweep_nan_on_power_overflow (lambda mu : Q) (c : Z) :
  0 <= lambda -> 0 < mu -> (1 <= c)%Z -> lambda < inject_Z c * mu ->
  overflows ((lambda / mu) ^ c) = true ->
  calculate_average_queue_time (Fin lambda) (Fin mu) c = Ok NaN /\
  calculate_wq_for_plot (Fin lambda) (Fin mu) c = Ok NaN.
Proof.
  intros Hl Hm Hc Hs Ho. servers_as_nat c k Hk.
  apply sweep_overflow_nan; [assumption | assumption | assumption | assumption |].
  right. exact Ho.
Qed.

Lemma sweep_nan_on_power_overflow_witness :
  calculate_average_queue_time (Fin 149) (Fin 1) 150 = Ok NaN /\
  calculate_wq_for_plot (Fin 149) (Fin 1) 150 = Ok NaN.
Proof.
  apply (sweep_nan_on_power_overflow 149 1 150);
    [lra | lra | lia | vm_compute; reflexivity | vm_compute; reflexivity].
Defined.

(** X27: on a stable load [0 <= rho < 1] with [c >= 1] servers,
    [calculate_lq] never divides by zero and never calls
    [math.factorial] on a negative number: it either returns the
    Erlang-C queue length or raises [OverflowError]. *)
Theorem calculate_lq_returns_or_overflows (rho : Q) (c : Z) :
  0 <= rho -> rho < 1 -> (1 <= c)%Z ->
  calculate_lq (Fin rho) c = Raise OverflowError \/
  calculate_lq (Fin rho) c = Ok (Fin (lq_erlang rho (Z.to_nat c))).
Proof.
  intros H0 H1 Hc. servers_as_nat c k Hk. rewrite Nat2Z.id.
  destruct (le_lt_dec k 170) as [L | L];
    [| left; apply calculate_lq_raises; [exact H1 | left; lia]].
  destruct (overflows ((inject_Z (Z.of_nat k) * rho) ^ Z.of_nat k)) eqn:O.
  - left. apply calculate_lq_raises; [exact H1 | right; exact O].
  - right. apply calculate_lq_stable; assumption.
Qed.

Lemma calculate_lq_returns_or_overflows_witness :
  calculate_lq (Fin (5 # 6)) 6 = Raise OverflowError \/
  calculate_lq (Fin (5 # 6)) 6 = Ok (Fin (lq_erlang (5 # 6) (Z.to_nat 6))).
Proof.
  apply (calculate_lq_returns_or_overflows (5 # 6) 6); [lra | lra | lia].
Defined.
